(** * Session store and event-stream client of the remote GUI automation
    front end: a shallow embedding and its properties.

    Embedded sources:
    - [store/sessionStore] (the Zustand store: [createSession],
      [selectSession], [sendTask] and its SSE handlers, [stopTask],
      [updateLastMessage], [completeTakeover]);
    - [services/api.ts] ([runTaskWithSSE]: the chunk loop, the frame
      splitting and the dispatch to the handlers);
    - [types] ([AgentStep], [Message], [TakeoverState], [Session]).

    Conventions.
    - Data has the TypeScript types of the source.  An optional field
      [f?: T] is an [option T]; a field that the source guards with [||] is
      optional here even where its type declares it.  A [number] is a
      rational, a string is its sequence of UTF-8 bytes, and a value of type
      [unknown] is a [JSON] value.
    - The steps array of a stored row is [unknown] behind a cast, so the
      history is converted on JSON values ([HistoryStep], [HistoryMessage]);
      [asAgentStep] and [asMessage] give a converted value at the type of
      the store, when its values are of that type.
    - A run of code that may throw ends in a [Completion].
    - JavaScript's [a || b] is [js_or]; what counts as false is given by
      the class [Falsy]: the empty string and the number 0, and no object or
      array.
    - [Date.now()] is an input [now] of the function that reads the clock;
      the readings of one synchronous run are taken to be the same.
    - An [async] function is cut at its [await]: [f_begin] runs up to the
      call and yields the requests made, [f_end] is the continuation and
      takes the call's outcome; [f] runs both on an undisturbed store.
    - A chunk is the text that [TextDecoder.decode] returns for it.
    - Console output is not part of the model. *)

From Stdlib Require Import QArith Ascii.
From stdpp Require Import base option list strings pretty.

Local Open Scope nat_scope.

(** ** JavaScript values *)

(** A JavaScript [number]. *)
Definition number : Type := Q.

Definition of_nat (n : nat) : number := inject_Z (Z.of_nat n).

(** Values of type [unknown] that came out of JSON. *)
#[local] Set Warnings "-register-all".
Inductive JSON : Type :=
  | JNull
  | JBool (b : bool)
  | JNum (q : number)
  | JStr (s : string)
  | JArr (l : list JSON)
  | JObj (kv : list (string * JSON)).
#[local] Set Warnings "register-all".

(** [Record<string, unknown>] *)
Definition JSRecord : Type := list (string * JSON).

(** [o[k]], [None] for [undefined]. *)
Fixpoint prop (k : string) (o : JSRecord) : option JSON :=
  match o with
  | [] => None
  | (k', v) :: o' => if String.eqb k' k then Some v else prop k o'
  end.

(** The values of a type that JavaScript treats as false in a condition. *)
Class Falsy (A : Type) := falsy : A → bool.

Global Instance falsy_string : Falsy string := λ s, String.eqb s "".
Global Instance falsy_number : Falsy number := λ q, Qeq_bool q 0.
Global Instance falsy_record : Falsy JSRecord := λ _, false.
Global Instance falsy_list {A} : Falsy (list A) := λ _, false.

(** [!!x] for an optional [x]: [undefined] is falsy. *)
Definition truthy {A} `{Falsy A} (x : option A) : bool :=
  match x with
  | Some v => negb (falsy v)
  | None => false
  end.

(** [x || d] *)
Definition js_or {A} `{Falsy A} (x : option A) (d : A) : A :=
  match x with
  | Some v => if falsy v then d else v
  | None => d
  end.

Global Instance falsy_json : Falsy JSON := λ j,
  match j with
  | JNull => true
  | JBool b => negb b
  | JNum q => Qeq_bool q 0
  | JStr s => String.eqb s ""
  | JArr _ | JObj _ => false
  end.

(** [j.k] for a value that is not [null]; [None] for [undefined]. *)
Definition member (k : string) (j : JSON) : option JSON :=
  match j with
  | JObj o => prop k o
  | _ => None
  end.

(** ** Types ([types/index.ts]) *)

Inductive AgentType : Type := glm | gelab.

Global Instance falsy_agent : Falsy AgentType := λ _, false.

(** A [Date]: [new Date()] at a clock reading, or [new Date(s)]. *)
Inductive Date : Type :=
  | DateNow (ms : Z)
  | DateOf (s : string).

Module Session.
Record t : Type := mk {
  id : string;
  user_id : string;
  status : string;
  name : option string;
  agent_type : option AgentType;
  created_at : string;
  updated_at : string
}.
End Session.

Module AgentStep.
Record t : Type := mk {
  id : string;
  stepNumber : number;
  thinking : option string;
  thinkingDuration : option number;
  action : option JSRecord;
  actionDuration : option number;
  status : string;
  timestamp : Date
}.
End AgentStep.

Module Message.
Record t : Type := mk {
  id : string;
  role : string;
  content : string;
  thinking : option string;
  action : option JSRecord;
  steps : option (list AgentStep.t);
  timestamp : Date;
  isStreaming : option bool
}.
End Message.

Module TakeoverState.
Record t : Type := mk {
  isActive : bool;
  message : option string
}.
End TakeoverState.

Module Screenshot.
Record t : Type := mk {
  base64 : option string;
  width : option number;
  height : option number
}.
End Screenshot.

(** The payload of a frame, read through the fields that the handlers of
    [SSEEventData] use. *)
Module EventData.
Record t : Type := mk {
  chunk : option string;
  full : option string;
  duration : option number;
  action : option JSRecord;
  base64 : option string;
  width : option number;
  height : option number;
  message : option string
}.
End EventData.

(** [ConversationRecord] ([services/api.ts]) *)
Module ConversationRecord.
Record t : Type := mk {
  id : string;
  session_id : string;
  role : string;
  content : string;
  thinking : option string;
  action : option JSRecord;
  created_at : string
}.
End ConversationRecord.

(** An [AbortController], by identity. *)
Definition AbortController : Type := nat.

(** ** The store ([SessionState]) *)

Record SessionState : Type := mkState {
  sessions : list Session.t;
  currentSession : option Session.t;
  isCreatingSession : bool;
  selectedAgentType : AgentType;
  messages : list Message.t;
  isProcessing : bool;
  screenshot : option Screenshot.t;
  takeover : TakeoverState.t;
  sseController : option AbortController
}.

Definition initialState : SessionState :=
  {| sessions := [];
     currentSession := None;
     isCreatingSession := false;
     selectedAgentType := glm;
     messages := [];
     isProcessing := false;
     screenshot := None;
     takeover := TakeoverState.mk false None;
     sseController := None |}.

(** What an operation does outside the store. *)
Inductive Effect : Type :=
  | Abort (c : AbortController)
  | RunTaskWithSSE (sessionId task : string) (agentType : AgentType)
  | ApiStopTask (sessionId : string)
  | ApiCompleteTakeover (sessionId : string)
  | ApiCreateSession (name : option string) (agentType : AgentType)
  | ApiGetConversations (sessionId : string).

(** [set({ messages })] and the like. *)
Definition set_messages (ms : list Message.t) (st : SessionState) : SessionState :=
  {| sessions := sessions st;
     currentSession := currentSession st;
     isCreatingSession := isCreatingSession st;
     selectedAgentType := selectedAgentType st;
     messages := ms;
     isProcessing := isProcessing st;
     screenshot := screenshot st;
     takeover := takeover st;
     sseController := sseController st |}.

Definition set_isProcessing (b : bool) (st : SessionState) : SessionState :=
  {| sessions := sessions st;
     currentSession := currentSession st;
     isCreatingSession := isCreatingSession st;
     selectedAgentType := selectedAgentType st;
     messages := messages st;
     isProcessing := b;
     screenshot := screenshot st;
     takeover := takeover st;
     sseController := sseController st |}.

Definition set_sseController (c : option AbortController) (st : SessionState)
  : SessionState :=
  {| sessions := sessions st;
     currentSession := currentSession st;
     isCreatingSession := isCreatingSession st;
     selectedAgentType := selectedAgentType st;
     messages := messages st;
     isProcessing := isProcessing st;
     screenshot := screenshot st;
     takeover := takeover st;
     sseController := c |}.

Definition set_isCreatingSession (b : bool) (st : SessionState) : SessionState :=
  {| sessions := sessions st;
     currentSession := currentSession st;
     isCreatingSession := b;
     selectedAgentType := selectedAgentType st;
     messages := messages st;
     isProcessing := isProcessing st;
     screenshot := screenshot st;
     takeover := takeover st;
     sseController := sseController st |}.

Definition set_screenshot (s : option Screenshot.t) (st : SessionState)
  : SessionState :=
  {| sessions := sessions st;
     currentSession := currentSession st;
     isCreatingSession := isCreatingSession st;
     selectedAgentType := selectedAgentType st;
     messages := messages st;
     isProcessing := isProcessing st;
     screenshot := s;
     takeover := takeover st;
     sseController := sseController st |}.

Definition set_takeover (t : TakeoverState.t) (st : SessionState) : SessionState :=
  {| sessions := sessions st;
     currentSession := currentSession st;
     isCreatingSession := isCreatingSession st;
     selectedAgentType := selectedAgentType st;
     messages := messages st;
     isProcessing := isProcessing st;
     screenshot := screenshot st;
     takeover := t;
     sseController := sseController st |}.

(** [set({ isProcessing: false, sseController: null })] *)
Definition set_idle (st : SessionState) : SessionState :=
  set_sseController None (set_isProcessing false st).

(** ** [updateLastMessage] *)

(** The [Partial<Message>] values that the store passes: a field that is
    [Some v] is a key of the object literal. *)
Module Updates.
Record t : Type := mk {
  content : option string;
  steps : option (list AgentStep.t);
  action : option (option JSRecord);
  isStreaming : option bool
}.
End Updates.

(** [{ ...m, ...updates }] *)
Definition merge (m : Message.t) (u : Updates.t) : Message.t :=
  {| Message.id := Message.id m;
     Message.role := Message.role m;
     Message.content := default (Message.content m) (Updates.content u);
     Message.thinking := Message.thinking m;
     Message.action := default (Message.action m) (Updates.action u);
     Message.steps :=
       match Updates.steps u with
       | Some s => Some s
       | None => Message.steps m
       end;
     Message.timestamp := Message.timestamp m;
     Message.isStreaming :=
       match Updates.isStreaming u with
       | Some b => Some b
       | None => Message.isStreaming m
       end |}.

Definition updateLastMessage (updates : Updates.t) (st : SessionState)
  : SessionState :=
  match last (messages st) with
  | Some m =>
      set_messages (<[length (messages st) - 1 := merge m updates]> (messages st)) st
  | None => set_messages (messages st) st
  end.

(** [{ content, isStreaming: false }] *)
Definition finalContent (c : string) : Updates.t :=
  Updates.mk (Some c) None None (Some false).

(** ** The SSE handlers of [sendTask] *)

(** [get().messages[messages.length - 1]?.steps || []] *)
Definition currentSteps (st : SessionState) : list AgentStep.t :=
  js_or (last (messages st) ≫= Message.steps) [].

(** [data.full || data.chunk || ''] *)
Definition thinkingContent (data : EventData.t) : string :=
  js_or (EventData.full data) (js_or (EventData.chunk data) "").

(** The step list that [onThinking] hands to [updateLastMessage]. *)
Definition thinkingSteps (now : Z) (data : EventData.t)
    (steps : list AgentStep.t) : list AgentStep.t :=
  let newStep :=
    {| AgentStep.id := "step-" +:+ pretty now;
       AgentStep.stepNumber := of_nat (length steps + 1);
       AgentStep.thinking := Some (thinkingContent data);
       AgentStep.thinkingDuration := EventData.duration data;
       AgentStep.action := None;
       AgentStep.actionDuration := None;
       AgentStep.status := "thinking";
       AgentStep.timestamp := DateNow now |} in
  match last steps with
  | None => steps ++ [newStep]
  | Some lastStep =>
      if String.eqb (AgentStep.status lastStep) "completed"
      then steps ++ [newStep]
      else
        <[length steps - 1 :=
            {| AgentStep.id := AgentStep.id lastStep;
               AgentStep.stepNumber := AgentStep.stepNumber lastStep;
               AgentStep.thinking := Some (thinkingContent data);
               AgentStep.thinkingDuration := EventData.duration data;
               AgentStep.action := AgentStep.action lastStep;
               AgentStep.actionDuration := AgentStep.actionDuration lastStep;
               AgentStep.status := "thinking";
               AgentStep.timestamp := AgentStep.timestamp lastStep |}]> steps
  end.

Definition onThinking (now : Z) (data : EventData.t) (st : SessionState)
  : SessionState :=
  let steps := currentSteps st in
  updateLastMessage
    (Updates.mk None (Some (thinkingSteps now data steps)) None None) st.

(** The step list that [onAction] hands to [updateLastMessage]; [None] when
    [steps.length > 0] fails and the handler does nothing. *)
Definition actionSteps (data : EventData.t) (steps : list AgentStep.t)
  : option (list AgentStep.t) :=
  match last steps with
  | None => None
  | Some lastStep =>
      Some (<[length steps - 1 :=
                {| AgentStep.id := AgentStep.id lastStep;
                   AgentStep.stepNumber := AgentStep.stepNumber lastStep;
                   AgentStep.thinking := AgentStep.thinking lastStep;
                   AgentStep.thinkingDuration := AgentStep.thinkingDuration lastStep;
                   AgentStep.action := EventData.action data;
                   AgentStep.actionDuration := EventData.duration data;
                   AgentStep.status := "completed";
                   AgentStep.timestamp := AgentStep.timestamp lastStep |}]> steps)
  end.

Definition onAction (data : EventData.t) (st : SessionState) : SessionState :=
  match actionSteps data (currentSteps st) with
  | Some updatedSteps =>
      updateLastMessage
        (Updates.mk None (Some updatedSteps) (Some (EventData.action data)) None) st
  | None => st
  end.

Definition onReady (data : EventData.t) (st : SessionState) : SessionState := st.

Definition onScreenshot (data : EventData.t) (st : SessionState) : SessionState :=
  set_screenshot
    (Some (Screenshot.mk (EventData.base64 data) (EventData.width data)
             (EventData.height data))) st.

Definition onTakeover (data : EventData.t) (st : SessionState) : SessionState :=
  set_takeover (TakeoverState.mk true (EventData.message data)) st.

Definition TASK_COMPLETED : string := "任务完成".
Definition TASK_STOPPED : string := "任务已停止".
Definition TASK_CANCELLED : string := "任务已取消".
Definition ERROR_PREFIX : string := "错误: ".
Definition CONNECTION_ERROR : string := "连接错误，请重试".
Definition SEND_FAILED : string := "发送失败，请重试".

Definition onCompleted (data : EventData.t) (st : SessionState) : SessionState :=
  set_idle
    (updateLastMessage
       (finalContent (js_or (EventData.message data) TASK_COMPLETED)) st).

(** [`${x}`] for an optional string. *)
Definition template (x : option string) : string := default "undefined" x.

(** [messages.length > 0 && messages[messages.length - 1].isStreaming] *)
Definition lastIsStreaming (st : SessionState) : bool :=
  match last (messages st) with
  | Some m => default false (Message.isStreaming m)
  | None => false
  end.

Definition onError (data : EventData.t) (st : SessionState) : SessionState :=
  set_idle
    (if lastIsStreaming st
     then updateLastMessage
            (finalContent (ERROR_PREFIX +:+ template (EventData.message data))) st
     else st).

Definition onStopped (data : EventData.t) (st : SessionState) : SessionState :=
  set_idle
    (updateLastMessage
       (finalContent (js_or (EventData.message data) TASK_STOPPED)) st).

Definition onConnectionError (st : SessionState) : SessionState :=
  set_idle
    (if lastIsStreaming st
     then updateLastMessage (finalContent CONNECTION_ERROR) st
     else st).

(** ** Strings ([String.prototype]) *)

(** [s.startsWith(p)] *)
Fixpoint startsWith (p s : string) : bool :=
  match p with
  | EmptyString => true
  | String a p' =>
      match s with
      | EmptyString => false
      | String b s' => Ascii.eqb a b && startsWith p' s'
      end
  end.

(** [s.slice(n)] *)
Fixpoint slice (n : nat) (s : string) : string :=
  match n, s with
  | 0, _ => s
  | S n', String _ s' => slice n' s'
  | S _, EmptyString => EmptyString
  end.

(** [!s.trim()], on the white space of ASCII. *)
Fixpoint blank (s : string) : bool :=
  match s with
  | EmptyString => true
  | String c s' => Ascii.is_space c && blank s'
  end.

Definition cons_head (c : ascii) (l : list string) : list string :=
  match l with
  | [] => [String c ""]
  | x :: r => String c x :: r
  end.

(** [s.split(sep)] for a separator that is not empty: the text is cut at
    each leftmost occurrence of [sep], and the scan resumes after it
    ([skip] counts the characters of an occurrence still to pass). *)
Fixpoint split_go (sep : string) (skip : nat) (s : string) : list string :=
  match s with
  | EmptyString => [""]
  | String c s' =>
      match skip with
      | S k => split_go sep k s'
      | 0 =>
          if startsWith sep s
          then "" :: split_go sep (String.length sep - 1) s'
          else cons_head c (split_go sep 0 s')
      end
  end.

Definition split (sep s : string) : list string := split_go sep 0 s.

Definition NL : string := String "010"%char "".
Definition NLNL : string := String "010"%char (String "010"%char "").

(** ** [runTaskWithSSE]: the stream loop ([services/api.ts]) *)

(** One turn of the [while] loop up to the [for]: the events cut from
    [buffer + chunk] and the buffer kept ([events.pop() || '']). *)
Definition feed (buffer chunk : string) : list string * string :=
  let events := split NLNL (buffer +:+ chunk) in
  (removelast events, js_or (last events) "").

(** The [for (const line of lines)] loop: the last [event: ] and the last
    [data: ] line win. *)
Definition scanLine (acc : string * string) (line : string) : string * string :=
  if startsWith "event: " line then (slice 7 line, acc.2)
  else if startsWith "data: " line then (acc.1, slice 6 line)
  else acc.

Definition parseLines (eventStr : string) : string * string :=
  foldl scanLine ("", "") (split NL eventStr).

Section Stream.

(** [JSON.parse] seen at the type of the handlers' parameter; [None]
    when it throws. *)
Variable JSON_parse : string → option EventData.t.

(** The [switch] on the event type. *)
Definition dispatch (now : Z) (eventType : string) (data : EventData.t)
    (st : SessionState) : SessionState :=
  if String.eqb eventType "ready" then onReady data st
  else if String.eqb eventType "thinking" then onThinking now data st
  else if String.eqb eventType "action" then onAction data st
  else if String.eqb eventType "screenshot" then onScreenshot data st
  else if String.eqb eventType "takeover" then onTakeover data st
  else if String.eqb eventType "completed" then onCompleted data st
  else if String.eqb eventType "error" then onError data st
  else if String.eqb eventType "stopped" then onStopped data st
  else st.

(** The body of [for (const eventStr of events)]. *)
Definition processEvent (now : Z) (st : SessionState) (eventStr : string)
  : SessionState :=
  if blank eventStr then st
  else
    let '(eventType, eventData) := parseLines eventStr in
    if falsy eventType || falsy eventData then st
    else
      match JSON_parse eventData with
      | Some data => dispatch now eventType data st
      | None => st
      end.

(** One turn of the [while] loop: the connection holds the buffer, the
    handlers write the store. *)
Definition processChunk (now : Z) (conn : string * SessionState)
    (chunk : string) : string * SessionState :=
  let '(events, buffer) := feed conn.1 chunk in
  (buffer, foldl (processEvent now) conn.2 events).

(** A frame that the loop drops: no event type, no data, or data that
    [JSON.parse] rejects. *)
Definition malformed (eventStr : string) : Prop :=
  (parseLines eventStr).1 = "" ∨ (parseLines eventStr).2 = "" ∨
  JSON_parse (parseLines eventStr).2 = None.

End Stream.

(** ** The store's operations *)

Definition abortIfAny (c : option AbortController) : list Effect :=
  match c with
  | Some c => [Abort c]
  | None => []
  end.

(** *** [sendTask] *)

Definition userMessage (now : Z) (task : string) : Message.t :=
  {| Message.id := "user-" +:+ pretty now;
     Message.role := "user";
     Message.content := task;
     Message.thinking := None;
     Message.action := None;
     Message.steps := None;
     Message.timestamp := DateNow now;
     Message.isStreaming := None |}.

Definition assistantMessage (now : Z) : Message.t :=
  {| Message.id := "assistant-" +:+ pretty now;
     Message.role := "assistant";
     Message.content := "";
     Message.thinking := None;
     Message.action := None;
     Message.steps := Some [];
     Message.timestamp := DateNow now;
     Message.isStreaming := Some true |}.

(** Up to [await runTaskWithSSE(...)]. *)
Definition sendTask_begin (now : Z) (task : string) (st : SessionState)
  : SessionState * list Effect :=
  if isProcessing st then (st, [])
  else
    match currentSession st with
    | None => (st, [])
    | Some session =>
        (set_isProcessing true
           (set_messages
              (messages st ++ [userMessage now task; assistantMessage now]) st),
         [RunTaskWithSSE (Session.id session) task (selectedAgentType st)])
    end.

(** After it: [Some controller] when the call resolved, [None] when it
    threw. *)
Definition sendTask_end (r : option AbortController) (st : SessionState)
  : SessionState :=
  match r with
  | Some controller => set_sseController (Some controller) st
  | None =>
      updateLastMessage (finalContent SEND_FAILED) (set_isProcessing false st)
  end.

(** *** [stopTask] *)

(** Up to [await agentApi.stopTask(...)]: the session and the controller
    read by [get()], or [None] when the call returns early. *)
Definition stopTask_begin (st : SessionState)
  : option (Session.t * option AbortController) :=
  if negb (isProcessing st) then None
  else
    match currentSession st with
    | None => None
    | Some session => Some (session, sseController st)
    end.

(** After it, on the store as it is by then: [ok] tells whether the
    request resolved. *)
Definition stopTask_end (ok : bool) (controller : option AbortController)
    (st : SessionState) : SessionState * list Effect :=
  if ok
  then (set_idle (updateLastMessage (finalContent TASK_STOPPED) st),
        abortIfAny controller)
  else (set_idle (updateLastMessage (finalContent TASK_CANCELLED) st), []).

Definition stopTask (ok : bool) (st : SessionState) : SessionState * list Effect :=
  match stopTask_begin st with
  | None => (st, [])
  | Some (session, controller) =>
      let '(st', effects) := stopTask_end ok controller st in
      (st', ApiStopTask (Session.id session) :: effects)
  end.

(** *** [completeTakeover] *)

Definition completeTakeover_begin (st : SessionState) : list Effect :=
  match currentSession st with
  | Some session => [ApiCompleteTakeover (Session.id session)]
  | None => []
  end.

(** The request's outcome [ok] is caught and not used. *)
Definition completeTakeover_end (ok : bool) (st : SessionState) : SessionState :=
  set_takeover (TakeoverState.mk false None) st.

Definition completeTakeover (ok : bool) (st : SessionState)
  : SessionState * list Effect :=
  (completeTakeover_end ok st, completeTakeover_begin st).

(** *** [createSession] *)

Definition createSession_begin (name : option string) (st : SessionState)
  : SessionState * list Effect :=
  (set_isCreatingSession true st,
   abortIfAny (sseController st) ++ [ApiCreateSession name (selectedAgentType st)]).

(** [Some session] when [sessionsApi.create] resolved; the [finally] runs in
    both cases. *)
Definition createSession_end (r : option Session.t) (st : SessionState)
  : SessionState :=
  set_isCreatingSession false
    match r with
    | Some session =>
        {| sessions := session :: sessions st;
           currentSession := Some session;
           isCreatingSession := isCreatingSession st;
           selectedAgentType := selectedAgentType st;
           messages := [];
           isProcessing := false;
           screenshot := None;
           takeover := TakeoverState.mk false None;
           sseController := None |}
    | None => st
    end.

Definition createSession (name : option string) (r : option Session.t)
    (st : SessionState) : SessionState * list Effect :=
  let '(st', effects) := createSession_begin name st in
  (createSession_end r st', effects).

(** *** [selectSession] and the conversion of the stored history *)

(** How a run of code ends: with a value, or with an exception of the
    given name. *)
Inductive Completion (A : Type) : Type :=
  | Returns (a : A)
  | Throws (name : string).

Arguments Returns {A} a.
Arguments Throws {A} name.

(** [array.map(f)] for a callback that may throw: the entries are visited
    in order, the first one at [index], and the first exception ends the
    map. *)
Fixpoint mapFrom {A B} (f : nat → A → Completion B) (index : nat) (l : list A)
  : Completion (list B) :=
  match l with
  | [] => Returns []
  | x :: l' =>
      match f index x with
      | Returns y =>
          match mapFrom f (S index) l' with
          | Returns ys => Returns (y :: ys)
          | Throws e => Throws e
          end
      | Throws e => Throws e
      end
  end.

(** A step as the conversion builds it.  The cast of [actionData.steps]
    does not check the stored values, so a field holds the JSON value that
    the entry has for it, whatever its type. *)
Module HistoryStep.
Record t : Type := mk {
  id : string;
  stepNumber : JSON;
  thinking : option JSON;
  action : option JSON;
  status : JSON;
  timestamp : Date
}.
End HistoryStep.

(** The callback of [actionData.steps.map].  Reading [step.stepNumber] of
    an entry that is [null] throws a TypeError; an entry that is neither
    [null] nor an object has none of the four fields. *)
Definition historyStep (conv : ConversationRecord.t) (index : nat) (step : JSON)
  : Completion HistoryStep.t :=
  match step with
  | JNull => Throws "TypeError"
  | _ =>
      Returns
        {| HistoryStep.id :=
             ConversationRecord.id conv +:+ "-step-" +:+ pretty (index + 1);
           HistoryStep.stepNumber :=
             js_or (member "stepNumber" step) (JNum (of_nat (index + 1)));
           HistoryStep.thinking := member "thinking" step;
           HistoryStep.action := member "action" step;
           HistoryStep.status := js_or (member "status" step) (JStr "completed");
           HistoryStep.timestamp := DateOf (ConversationRecord.created_at conv) |}
  end.

(** The single step of a row of the legacy format; its values have the
    types that [ConversationRecord] declares. *)
Definition legacyStep (conv : ConversationRecord.t) : HistoryStep.t :=
  {| HistoryStep.id := ConversationRecord.id conv +:+ "-step-1";
     HistoryStep.stepNumber := JNum (of_nat 1);
     HistoryStep.thinking := JStr <$> ConversationRecord.thinking conv;
     HistoryStep.action := JObj <$> ConversationRecord.action conv;
     HistoryStep.status := JStr "completed";
     HistoryStep.timestamp := DateOf (ConversationRecord.created_at conv) |}.

(** [message.steps] as the callback of [conversations.map] leaves it, or
    the exception that the callback ends with. *)
Definition historySteps (conv : ConversationRecord.t)
  : Completion (option (list HistoryStep.t)) :=
  if String.eqb (ConversationRecord.role conv) "assistant"
  then
    match ConversationRecord.action conv ≫= prop "steps" with
    | Some (JArr steps) =>
        match mapFrom (historyStep conv) 0 steps with
        | Returns l => Returns (Some l)
        | Throws e => Throws e
        end
    | _ =>
        Returns
          (if truthy (ConversationRecord.thinking conv)
              || truthy (ConversationRecord.action conv)
           then Some [legacyStep conv]
           else None)
    end
  else Returns None.

(** The message that the callback of [conversations.map] returns. *)
Module HistoryMessage.
Record t : Type := mk {
  id : string;
  role : string;
  content : string;
  steps : option (list HistoryStep.t);
  timestamp : Date;
  isStreaming : bool
}.
End HistoryMessage.

Definition toMessage (conv : ConversationRecord.t)
  : Completion HistoryMessage.t :=
  match historySteps conv with
  | Returns steps =>
      Returns
        {| HistoryMessage.id := ConversationRecord.id conv;
           HistoryMessage.role := ConversationRecord.role conv;
           HistoryMessage.content := ConversationRecord.content conv;
           HistoryMessage.steps := steps;
           HistoryMessage.timestamp := DateOf (ConversationRecord.created_at conv);
           HistoryMessage.isStreaming := false |}
  | Throws e => Throws e
  end.

(** [conversations.map(...)], lines 127 to 169. *)
Definition historyMessages (conversations : list ConversationRecord.t)
  : Completion (list HistoryMessage.t) :=
  mapFrom (λ _, toMessage) 0 conversations.

(** A converted step at the type [AgentStep] under which the store holds
    it: defined when each of its values is of the type of its field. *)
Definition asAgentStep (s : HistoryStep.t) : option AgentStep.t :=
  match HistoryStep.stepNumber s, HistoryStep.status s with
  | JNum stepNumber, JStr status =>
      thinking ←
        match HistoryStep.thinking s with
        | None => Some None
        | Some (JStr t) => Some (Some t)
        | Some _ => None
        end;
      action ←
        match HistoryStep.action s with
        | None => Some None
        | Some (JObj a) => Some (Some a)
        | Some _ => None
        end;
      Some {| AgentStep.id := HistoryStep.id s;
              AgentStep.stepNumber := stepNumber;
              AgentStep.thinking := thinking;
              AgentStep.thinkingDuration := None;
              AgentStep.action := action;
              AgentStep.actionDuration := None;
              AgentStep.status := status;
              AgentStep.timestamp := HistoryStep.timestamp s |}
  | _, _ => None
  end.

(** A converted message at the type [Message]. *)
Definition asMessage (m : HistoryMessage.t) : option Message.t :=
  steps ←
    match HistoryMessage.steps m with
    | None => Some None
    | Some l => Some <$> mapM asAgentStep l
    end;
  Some {| Message.id := HistoryMessage.id m;
          Message.role := HistoryMessage.role m;
          Message.content := HistoryMessage.content m;
          Message.thinking := None;
          Message.action := None;
          Message.steps := steps;
          Message.timestamp := HistoryMessage.timestamp m;
          Message.isStreaming := Some (HistoryMessage.isStreaming m) |}.

(** Up to [await sessionsApi.getConversations(...)]. *)
Definition selectSession_begin (session : Session.t) (st : SessionState)
  : SessionState * list Effect :=
  ({| sessions := sessions st;
      currentSession := Some session;
      isCreatingSession := isCreatingSession st;
      selectedAgentType := js_or (Session.agent_type session) glm;
      messages := [];
      isProcessing := false;
      screenshot := None;
      takeover := takeover st;
      sseController := None |},
   abortIfAny (sseController st) ++ [ApiGetConversations (Session.id session)]).

(** After it.  [r] is how the [try] block went: [Some messages] when it
    came to [set({ messages })] with these messages, [None] when it threw
    before that, because the request rejected or because the conversion
    threw; the [catch] only logs. *)
Definition selectSession_end (r : option (list Message.t))
    (st : SessionState) : SessionState :=
  match r with
  | Some messages => set_messages messages st
  | None => st
  end.

Definition selectSession (session : Session.t)
    (r : option (list Message.t)) (st : SessionState)
  : SessionState * list Effect :=
  let '(st', effects) := selectSession_begin session st in
  (selectSession_end r st', effects).

(** How the [try] block goes on a response of the history request
    ([fetched] is [None] when the request rejected): the [r] of
    [selectSession_end].  The outer [None] stands for a response whose
    converted messages hold a value that is not of the type of its field:
    what the block stores then is not a [Message]. *)
Definition loadHistory (fetched : option (list ConversationRecord.t))
  : option (option (list Message.t)) :=
  match fetched with
  | Some conversations =>
      match historyMessages conversations with
      | Returns converted => Some <$> mapM asMessage converted
      | Throws _ => Some None
      end
  | None => Some None
  end.

(** An assistant row whose steps array holds [null]. *)
Definition nullStep (conv : ConversationRecord.t) : Prop :=
  ConversationRecord.role conv = "assistant" ∧
  ∃ a entries,
    ConversationRecord.action conv = Some a ∧
    prop "steps" a = Some (JArr entries) ∧
    JNull ∈ entries.

(** ** The step reducer, frame by frame *)

(** The two frames that write the step list. *)
Inductive StepFrame : Type :=
  | ThinkingFrame (now : Z) (data : EventData.t)
  | ActionFrame (data : EventData.t).

(** The step list after a frame, given the one before it: what [onThinking]
    and [onAction] store in the open message. *)
Definition reduce (steps : list AgentStep.t) (f : StepFrame) : list AgentStep.t :=
  match f with
  | ThinkingFrame now data => thinkingSteps now data steps
  | ActionFrame data => default steps (actionSteps data steps)
  end.

(** The handler that the loop calls for the frame. *)
Definition applyFrame (st : SessionState) (f : StepFrame) : SessionState :=
  match f with
  | ThinkingFrame now data => onThinking now data st
  | ActionFrame data => onAction data st
  end.

(** Step [i] (from 0) carries the number [i + 1]. *)
Definition contiguous (steps : list AgentStep.t) : Prop :=
  ∀ i s, steps !! i = Some s → AgentStep.stepNumber s = of_nat (i + 1).

(** Every step before the last one is completed. *)
Definition onlyLastOpen (steps : list AgentStep.t) : Prop :=
  ∀ i s, steps !! i = Some s → i + 1 < length steps →
    AgentStep.status s = "completed".

(** [l] with the thinking of a frame written into it. *)
Definition withThinking (data : EventData.t) (l : AgentStep.t) : AgentStep.t :=
  {| AgentStep.id := AgentStep.id l;
     AgentStep.stepNumber := AgentStep.stepNumber l;
     AgentStep.thinking :=
       Some (js_or (EventData.full data) (js_or (EventData.chunk data) ""));
     AgentStep.thinkingDuration := EventData.duration data;
     AgentStep.action := AgentStep.action l;
     AgentStep.actionDuration := AgentStep.actionDuration l;
     AgentStep.status := "thinking";
     AgentStep.timestamp := AgentStep.timestamp l |}.

(** [l] closed by the action of a frame. *)
Definition withAction (data : EventData.t) (l : AgentStep.t) : AgentStep.t :=
  {| AgentStep.id := AgentStep.id l;
     AgentStep.stepNumber := AgentStep.stepNumber l;
     AgentStep.thinking := AgentStep.thinking l;
     AgentStep.thinkingDuration := AgentStep.thinkingDuration l;
     AgentStep.action := EventData.action data;
     AgentStep.actionDuration := EventData.duration data;
     AgentStep.status := "completed";
     AgentStep.timestamp := AgentStep.timestamp l |}.

(** ** Frames on the wire *)

(** The frames, each followed by its terminator. *)
Definition wire (frames : list string) : string :=
  foldr (λ f s, f +:+ NLNL +:+ s) "" frames.

(** [s.includes(sep)] *)
Fixpoint includes (sep s : string) : bool :=
  startsWith sep s ||
  match s with
  | EmptyString => false
  | String _ s' => includes sep s'
  end.

(** [s.endsWith('\n')] *)
Fixpoint endsWithNL (s : string) : bool :=
  match s with
  | EmptyString => false
  | String c EmptyString => Ascii.eqb "010" c
  | String _ s' => endsWithNL s'
  end.

(** A frame as the server writes it: no blank line inside, no newline at
    its end. *)
Definition clean (frame : string) : bool :=
  negb (includes NLNL frame) && negb (endsWithNL frame).

(** Nothing of the first chunk is left in the buffer: no frame spans the
    point where the two chunks meet. *)
Definition complete (chunk : string) : Prop := (feed "" chunk).2 = "".

(** ** The statements of the specification that the store does not meet,
    word for word *)

(** "Steps array is taken as-is, defaulting any missing stepNumber to its
    position+1 and any missing status to completed": only an absent field
    is replaced. *)
Definition specHistoryStep (conv : ConversationRecord.t) (index : nat)
    (step : JSON) : Completion HistoryStep.t :=
  match step with
  | JNull => Throws "TypeError"
  | _ =>
      Returns
        {| HistoryStep.id :=
             ConversationRecord.id conv +:+ "-step-" +:+ pretty (index + 1);
           HistoryStep.stepNumber :=
             default (JNum (of_nat (index + 1))) (member "stepNumber" step);
           HistoryStep.thinking := member "thinking" step;
           HistoryStep.action := member "action" step;
           HistoryStep.status := default (JStr "completed") (member "status" step);
           HistoryStep.timestamp := DateOf (ConversationRecord.created_at conv) |}
  end.

(** "If either thinking or action is present, synthesize exactly one step";
    "a row with neither shape present yields zero steps". *)
Definition specHistorySteps (conv : ConversationRecord.t)
  : Completion (option (list HistoryStep.t)) :=
  match ConversationRecord.action conv ≫= prop "steps" with
  | Some (JArr steps) =>
      match mapFrom (specHistoryStep conv) 0 steps with
      | Returns l => Returns (Some l)
      | Throws e => Throws e
      end
  | _ =>
      Returns
        (if bool_decide (is_Some (ConversationRecord.thinking conv))
            || bool_decide (is_Some (ConversationRecord.action conv))
         then Some [legacyStep conv]
         else None)
  end.

(** "thinking = payload.full ?? payload.chunk": only an absent [full]
    gives way to [chunk]. *)
Definition specThinkingContent (data : EventData.t) : option string :=
  match EventData.full data with
  | Some full => Some full
  | None => EventData.chunk data
  end.

(** "Set final content from the frame's message field (default text if
    absent)". *)
Definition specFinalContent (data : EventData.t) (text : string) : string :=
  default text (EventData.message data).

(** "While active, the Task Lifecycle Controller must not allow a new task
    to be sent": the call changes nothing and opens nothing. *)
Definition rejected (r : SessionState * list Effect) (st : SessionState) : Prop :=
  r = (st, []).

(** [{ ...m, content, isStreaming: false }] *)
Definition closed (content : string) (m : Message.t) : Message.t :=
  {| Message.id := Message.id m;
     Message.role := Message.role m;
     Message.content := content;
     Message.thinking := Message.thinking m;
     Message.action := Message.action m;
     Message.steps := Message.steps m;
     Message.timestamp := Message.timestamp m;
     Message.isStreaming := Some false |}.

(** ** Sample values *)

Definition noData : EventData.t :=
  EventData.mk None None None None None None None None.

Definition messageData (m : string) : EventData.t :=
  EventData.mk None None None None None None None (Some m).

Definition thinkingData (full : string) : EventData.t :=
  EventData.mk None (Some full) None None None None None None.

Definition tapData : EventData.t :=
  EventData.mk None None (Some (3 # 2)%Q) (Some [("action", JStr "tap")])
    None None None None.

Definition sampleSession : Session.t :=
  Session.mk "s1" "u1" "active" None (Some gelab) "2025-01-01" "2025-01-01".

(** A payload parser for the samples: text that starts with an opening
    brace is read as a payload whose [full], [message] and [action.action]
    are the text after it; anything else is rejected. *)
Definition sampleParse (s : string) : option EventData.t :=
  if startsWith "{" s
  then Some (EventData.mk None (Some (slice 1 s)) None
               (Some [("action", JStr (slice 1 s))]) None None None
               (Some (slice 1 s)))
  else None.

Definition sampleFrame (kind text : string) : string :=
  "event: " +:+ kind +:+ NL +:+ "data: {" +:+ text.

(** A store with a session selected and a task running: [createSession]
    then [sendTask], both calls resolved. *)
Definition runningState : SessionState :=
  sendTask_end (Some 1)
    (sendTask_begin 1000 "open settings"
       (createSession None (Some sampleSession) initialState).1).1.

(** The task asked for a takeover and then completed: the store is idle,
    the session is selected, and the takeover is still active. *)
Definition takeoverIdleState : SessionState :=
  onCompleted (messageData "done")
    (onTakeover (messageData "please login") runningState).

(** A stored row whose steps array holds a step numbered 0 with an empty
    status. *)
Definition zeroStepRow : ConversationRecord.t :=
  ConversationRecord.mk "c1" "s1" "assistant" "ok" None
    (Some [("steps",
            JArr [JObj [("stepNumber", JNum 0%Q); ("thinking", JStr "plan");
                        ("status", JStr "")]])])
    "2025-01-01".

(** A stored row of the legacy shape whose thinking is the empty text. *)
Definition emptyThinkingRow : ConversationRecord.t :=
  ConversationRecord.mk "c2" "s1" "assistant" "ok" (Some "") None "2025-01-01".

Definition openStep : AgentStep.t :=
  AgentStep.mk "step-1" (of_nat 1) (Some "p1") None None None "thinking"
    (DateNow 1).

(** A thinking payload whose [full] is the empty text and whose [chunk] is
    not. *)
Definition emptyFullData : EventData.t :=
  EventData.mk (Some "c1") (Some "") None None None None None None.

(** A stored row whose steps array holds [null] after a well-formed
    entry. *)
Definition nullStepRow : ConversationRecord.t :=
  ConversationRecord.mk "c5" "s1" "assistant" "ok" None
    (Some [("steps", JArr [JObj [("thinking", JStr "plan")]; JNull])])
    "2025-01-01".

(** A stored row whose only entry has a text for its step number and a
    text for its action. *)
Definition textNumberRow : ConversationRecord.t :=
  ConversationRecord.mk "c6" "s1" "assistant" "ok" None
    (Some [("steps", JArr [JObj [("stepNumber", JStr "3");
                                 ("action", JStr "tap")]])])
    "2025-01-01".


Definition twoStepRow : ConversationRecord.t :=
  ConversationRecord.mk "c4" "s1" "assistant" "ok" None
    (Some [("steps",
            JArr [JObj [("thinking", JStr "p1")];
                  JObj [("stepNumber", JNum (of_nat 2));
                        ("thinking", JStr "p2")]])])
    "2025-01-01".

(** ** The rest of the store *)

Definition set_sessions (l : list Session.t) (st : SessionState) : SessionState :=
  {| sessions := l;
     currentSession := currentSession st;
     isCreatingSession := isCreatingSession st;
     selectedAgentType := selectedAgentType st;
     messages := messages st;
     isProcessing := isProcessing st;
     screenshot := screenshot st;
     takeover := takeover st;
     sseController := sseController st |}.

Definition setAgentType (agentType : AgentType) (st : SessionState)
  : SessionState :=
  {| sessions := sessions st;
     currentSession := currentSession st;
     isCreatingSession := isCreatingSession st;
     selectedAgentType := agentType;
     messages := messages st;
     isProcessing := isProcessing st;
     screenshot := screenshot st;
     takeover := takeover st;
     sseController := sseController st |}.

(** [Some sessions] when [sessionsApi.list] resolved; a failure is only
    logged. *)
Definition fetchSessions (r : option (list Session.t)) (st : SessionState)
  : SessionState :=
  match r with
  | Some l => set_sessions l st
  | None => st
  end.

Definition addMessage (message : Message.t) (st : SessionState) : SessionState :=
  set_messages (messages st ++ [message]) st.

Definition clearMessages (st : SessionState) : SessionState :=
  set_messages [] st.

(** [closeSession] after [await sessionsApi.delete(sessionId)]: [ok] tells
    whether the request resolved; when it did not, the error is thrown on
    and the store is not written. *)
Definition closeSession (ok : bool) (sessionId : string) (st : SessionState)
  : SessionState * list Effect :=
  if ok
  then
    let isCurrent :=
      match currentSession st with
      | Some session => String.eqb (Session.id session) sessionId
      | None => false
      end in
    let st1 :=
      if isCurrent
      then {| sessions := sessions st;
              currentSession := None;
              isCreatingSession := isCreatingSession st;
              selectedAgentType := selectedAgentType st;
              messages := [];
              isProcessing := isProcessing st;
              screenshot := None;
              takeover := takeover st;
              sseController := None |}
      else st in
    (set_sessions
       (filter (λ s, Session.id s ≠ sessionId) (sessions st1)) st1,
     if isCurrent then abortIfAny (sseController st) else [])
  else (st, []).

(** [sendTask] with its call: [r] is the outcome of [runTaskWithSSE]. *)
Definition sendTask (now : Z) (task : string) (r : option AbortController)
    (st : SessionState) : SessionState * list Effect :=
  if isProcessing st then (st, [])
  else
    match currentSession st with
    | None => (st, [])
    | Some _ =>
        let '(st', effects) := sendTask_begin now task st in
        (sendTask_end r st', effects)
    end.

(** *** The takeover dialog ([TakeoverModal]) *)

(** [handleStop]: [stopTask()] then [completeTakeover()], neither awaited.
    Both run up to their request before either continuation does; the
    continuations run in the order the requests settle ([stopFirst]). *)
Definition handleStop (stopFirst okStop okTakeover : bool) (st : SessionState)
  : SessionState * list Effect :=
  match stopTask_begin st with
  | None => (completeTakeover_end okTakeover st, completeTakeover_begin st)
  | Some (session, controller) =>
      let requests :=
        ApiStopTask (Session.id session) :: completeTakeover_begin st in
      if stopFirst
      then
        let '(st1, effects) := stopTask_end okStop controller st in
        (completeTakeover_end okTakeover st1, requests ++ effects)
      else
        let '(st2, effects) :=
          stopTask_end okStop controller (completeTakeover_end okTakeover st) in
        (st2, requests ++ effects)
  end.

(** ** [services/api.ts]: requests and their errors *)

Module ApiError.
Record t : Type := mk {
  status : Z;
  detail : JSON;
  message : string;
  name : string
}.
End ApiError.

(** A [Response], with what its [json()] gives: [None] when it rejects. *)
Module Response.
Record t : Type := mk {
  ok : bool;
  status : Z;
  json : option JSON
}.
End Response.

(** How a promise settles; a rejection other than an [ApiError] by the name
    of the error. *)
Inductive Settled : Type :=
  | Resolved (value : JSON)
  | RejectedApiError (error : ApiError.t)
  | RejectedOther (name : string).

Definition REQUEST_FAILED : string := "Request failed".

Section Api.

(** JavaScript's conversion of a value to a string, which [Error] applies
    to its argument. *)
Variable ToString : JSON → string.

(** [new ApiError(status, detail)] *)
Definition newApiError (status : Z) (detail : JSON) : ApiError.t :=
  {| ApiError.status := status;
     ApiError.detail := detail;
     ApiError.message :=
       match detail with
       | JStr s => s
       | _ =>
           match js_or (member "message" detail) (JStr REQUEST_FAILED) with
           | JStr s => s
           | v => ToString v
           end
       end;
     ApiError.name := "ApiError" |}.

(** What [apiRequest] and [runTaskWithSSE] do with a response that is not
    ok: [error.detail] throws a [TypeError] when the body is [null]. *)
Definition rejectNotOk (response : Response.t) : Settled :=
  match default (JObj [("detail", JStr REQUEST_FAILED)]) (Response.json response) with
  | JNull => RejectedOther "TypeError"
  | error =>
      RejectedApiError
        (newApiError (Response.status response)
           (js_or (member "detail" error) (JStr REQUEST_FAILED)))
  end.

(** [apiRequest] after [await fetch(...)]: the response, or the name of the
    error that [fetch] or [getAuthHeaders] rejected with. *)
Definition apiRequest (fetched : Response.t + string) : Settled :=
  match fetched with
  | inr name => RejectedOther name
  | inl response =>
      if Response.ok response
      then
        match Response.json response with
        | Some value => Resolved value
        | None => RejectedOther "SyntaxError"
        end
      else rejectNotOk response
  end.

(** What ends the stream of [runTaskWithSSE] other than its last chunk. *)
Inductive StreamFailure : Type :=
  | NotOk (response : Response.t)
  | NoBody
  | ReadRejected (name : string).

Definition failureName (f : StreamFailure) : string :=
  match f with
  | NotOk response =>
      match rejectNotOk response with
      | RejectedApiError e => ApiError.name e
      | RejectedOther name => name
      | Resolved _ => ""
      end
  | NoBody => "Error"
  | ReadRejected name => name
  end.

(** The [.catch] of [runTaskWithSSE], with the [onConnectionError] that
    [sendTask] passes. *)
Definition onStreamFailure (f : StreamFailure) (st : SessionState)
  : SessionState :=
  if String.eqb (failureName f) "AbortError" then st
  else onConnectionError st.

End Api.

(** *** The notice of [handleCreateSession] ([MainLayout]) *)

Definition CREATE_FAILED : string := "创建会话失败".
Definition CREATE_FAILED_BUSY : string := "资源紧张，创建会话失败，请稍后重试".

Inductive Notice : Type :=
  | Success
  | DailyLimit (message : option JSON)
  | ActiveLimit (message suggestion : option JSON)
  | ErrorText (message : JSON).

(** The [catch] of [handleCreateSession], by how [createSession] settled. *)
Definition createSessionNotice (s : Settled) : Notice :=
  match s with
  | Resolved _ => Success
  | RejectedApiError e =>
      if Z.eqb (ApiError.status e) 403
      then
        let detail := ApiError.detail e in
        match member "type" detail with
        | Some (JStr type) =>
            if String.eqb type "daily_limit_exceeded"
            then DailyLimit (member "message" detail)
            else if String.eqb type "active_limit_exceeded"
            then ActiveLimit (member "message" detail) (member "suggestion" detail)
            else ErrorText (js_or (member "message" detail) (JStr CREATE_FAILED))
        | _ => ErrorText (js_or (member "message" detail) (JStr CREATE_FAILED))
        end
      else ErrorText (JStr CREATE_FAILED_BUSY)
  | RejectedOther _ => ErrorText (JStr CREATE_FAILED_BUSY)
  end.

(** ** What the user and the server do to the store *)

(** The operations of the store and the events of its stream, each with
    the outcome of the request it makes. *)
Inductive Action : Type :=
  | DoSetAgentType (agentType : AgentType)
  | DoFetchSessions (r : option (list Session.t))
  | DoCreateSession (name : option string) (r : option Session.t)
  | DoSelectSession (session : Session.t) (r : option (list Message.t))
  | DoCloseSession (ok : bool) (sessionId : string)
  | DoSendTask (now : Z) (task : string) (r : option AbortController)
  | DoStopTask (ok : bool)
  | DoAddMessage (message : Message.t)
  | DoClearMessages
  | DoCompleteTakeover (ok : bool)
  | DoFrame (now : Z) (eventType : string) (data : EventData.t)
  | DoConnectionError.

Definition run (st : SessionState) (a : Action) : SessionState :=
  match a with
  | DoSetAgentType agentType => setAgentType agentType st
  | DoFetchSessions r => fetchSessions r st
  | DoCreateSession name r => (createSession name r st).1
  | DoSelectSession session r => (selectSession session r st).1
  | DoCloseSession ok sessionId => (closeSession ok sessionId st).1
  | DoSendTask now task r => (sendTask now task r st).1
  | DoStopTask ok => (stopTask ok st).1
  | DoAddMessage message => addMessage message st
  | DoClearMessages => clearMessages st
  | DoCompleteTakeover ok => (completeTakeover ok st).1
  | DoFrame now eventType data => dispatch now eventType data st
  | DoConnectionError => onConnectionError st
  end.

(** The stores that the operations reach from the initial one. *)
Inductive reachable : SessionState → Prop :=
  | reachable_initial : reachable initialState
  | reachable_run st a : reachable st → reachable (run st a).

(** The actions that write the takeover state. *)
Definition writesTakeover (a : Action) : bool :=
  match a with
  | DoCreateSession _ (Some _) => true
  | DoCompleteTakeover _ => true
  | DoFrame _ eventType _ => String.eqb eventType "takeover"
  | _ => false
  end.

(** The number of thinking frames in a list. *)
Fixpoint thinkingFrames (frames : list StepFrame) : nat :=
  match frames with
  | [] => 0
  | ThinkingFrame _ _ :: frames' => S (thinkingFrames frames')
  | ActionFrame _ :: frames' => thinkingFrames frames'
  end.

(** *** Frames as the server writes them *)

(** [event: <kind>\ndata: <json>], the format that the loop's comment
    names. *)
Definition frameText (kind data : string) : string :=
  "event: " +:+ kind +:+ NL +:+ "data: " +:+ data.

Section Parsed.

Variable JSON_parse : string → option EventData.t.

(** What the loop does with a kind and a data text once they are read. *)
Definition dispatchText (now : Z) (st : SessionState) (frame : string * string)
  : SessionState :=
  if falsy frame.1 || falsy frame.2 then st
  else
    match JSON_parse frame.2 with
    | Some data => dispatch now frame.1 data st
    | None => st
    end.

End Parsed.

(** ** Properties of the step reducer *)

Lemma insert_last {A} (init : list A) (l x : A) :
  <[length (init ++ [l]) - 1 := x]> (init ++ [l]) = init ++ [x].
Proof.
  rewrite length_app. simpl.
  replace (length init + 1 - 1) with (length init + 0) by lia.
  by rewrite insert_app_r.
Qed.

Lemma eqb_completed (s : string) :
  String.eqb s "completed" = bool_decide (s = "completed").
Proof.
  destruct (String.eqb_spec s "completed") as [->|Hne].
  - by rewrite bool_decide_eq_true_2.
  - by rewrite bool_decide_eq_false_2.
Qed.

Lemma thinkingSteps_open (now : Z) (data : EventData.t)
    (init : list AgentStep.t) (l : AgentStep.t) :
  AgentStep.status l ≠ "completed" →
  thinkingSteps now data (init ++ [l]) = init ++ [withThinking data l].
Proof.
  intros Hopen. unfold thinkingSteps. rewrite last_snoc.
  rewrite eqb_completed, bool_decide_eq_false_2 by done.
  apply insert_last.
Qed.

Lemma thinkingSteps_closed (now : Z) (data : EventData.t)
    (steps : list AgentStep.t) :
  (∀ l, last steps = Some l → AgentStep.status l = "completed") →
  ∃ s, thinkingSteps now data steps = steps ++ [s] ∧
       AgentStep.status s = "thinking" ∧
       AgentStep.stepNumber s = of_nat (length steps + 1) ∧
       AgentStep.thinking s =
         Some (js_or (EventData.full data) (js_or (EventData.chunk data) "")) ∧
       AgentStep.thinkingDuration s = EventData.duration data ∧
       AgentStep.action s = None.
Proof.
  intros Hclosed. unfold thinkingSteps.
  destruct (last steps) as [l|] eqn:Hlast.
  - rewrite eqb_completed, bool_decide_eq_true_2 by auto.
    eexists. split; [reflexivity|]. by repeat split.
  - eexists. split; [reflexivity|]. by repeat split.
Qed.

Lemma actionSteps_snoc (data : EventData.t) (init : list AgentStep.t)
    (l : AgentStep.t) :
  actionSteps data (init ++ [l]) = Some (init ++ [withAction data l]).
Proof.
  unfold actionSteps. rewrite last_snoc. f_equal. apply insert_last.
Qed.

Lemma contiguous_snoc (steps : list AgentStep.t) (s : AgentStep.t) :
  contiguous steps →
  AgentStep.stepNumber s = of_nat (length steps + 1) →
  contiguous (steps ++ [s]).
Proof.
  intros Hc Hs i x Hi.
  apply lookup_app_Some in Hi as [Hi|[Hge Hi]]; [by apply Hc|].
  apply list_lookup_singleton_Some in Hi as [Hi <-].
  rewrite Hs. f_equal. lia.
Qed.

Lemma contiguous_init (init : list AgentStep.t) (l : AgentStep.t) :
  contiguous (init ++ [l]) →
  contiguous init ∧ AgentStep.stepNumber l = of_nat (length init + 1).
Proof.
  intros Hc. split.
  - intros i x Hi. apply Hc. by apply lookup_app_l_Some.
  - apply Hc. rewrite lookup_app_r by lia.
    by replace (length init - length init) with 0 by lia.
Qed.

Lemma onlyLastOpen_snoc (init : list AgentStep.t) (x : AgentStep.t) :
  onlyLastOpen (init ++ [x]) ↔
  ∀ i s, init !! i = Some s → AgentStep.status s = "completed".
Proof.
  split.
  - intros Ho i s Hi. apply (Ho i).
    + by apply lookup_app_l_Some.
    + apply lookup_lt_Some in Hi. rewrite length_app. simpl. lia.
  - intros Hall i s Hi Hlt. rewrite length_app in Hlt. simpl in Hlt.
    apply (Hall i). rewrite lookup_app_l in Hi by lia. done.
Qed.

Lemma onlyLastOpen_closed (steps : list AgentStep.t) :
  onlyLastOpen steps →
  (∀ l, last steps = Some l → AgentStep.status l = "completed") →
  ∀ i s, steps !! i = Some s → AgentStep.status s = "completed".
Proof.
  intros Ho Hlast i s Hi.
  destruct (decide (i + 1 < length steps)) as [Hlt|Hge]; [by apply (Ho i)|].
  apply Hlast. rewrite last_lookup.
  apply lookup_lt_Some in Hi as Hlt.
  by replace (pred (length steps)) with i by lia.
Qed.

(** What the handlers store is what [thinkingSteps] and [actionSteps]
    compute from the steps of the last message. *)
Lemma currentSteps_updateLastMessage (steps : list AgentStep.t)
    (a : option (option JSRecord)) (st : SessionState) :
  messages st ≠ [] →
  currentSteps (updateLastMessage (Updates.mk None (Some steps) a None) st) = steps.
Proof.
  intros Hne. unfold updateLastMessage, currentSteps.
  destruct (last (messages st)) as [m|] eqn:Hlast.
  - apply last_Some in Hlast as [ms Hms]. simpl. rewrite Hms.
    by rewrite insert_last, last_snoc.
  - by apply last_None in Hlast.
Qed.

Lemma onThinking_currentSteps (now : Z) (data : EventData.t) (st : SessionState) :
  messages st ≠ [] →
  currentSteps (onThinking now data st) = thinkingSteps now data (currentSteps st).
Proof. intros Hne. by apply currentSteps_updateLastMessage. Qed.

Lemma onAction_currentSteps (data : EventData.t) (st : SessionState) :
  messages st ≠ [] →
  currentSteps (onAction data st) = reduce (currentSteps st) (ActionFrame data).
Proof.
  intros Hne. unfold onAction. simpl.
  destruct (actionSteps data (currentSteps st)); simpl; [|done].
  by apply currentSteps_updateLastMessage.
Qed.

(** C1. A thinking frame on a step list that is empty or whose last step is
    completed appends exactly one step: its status is 'thinking', its number
    is the previous length plus 1, and its text is [full], else [chunk], else
    the empty text (JavaScript's [||]).  On a list whose last step is not
    completed it rewrites that step in place: thinking and thinkingDuration
    come from the frame, the status is 'thinking', every other field and
    every other step stay, and the length does not change.  The list is
    the one of the store's last message, and the result is stored there.
    The text is that of [full] when that is present and not empty; when
    [full] is missing or empty it is that of [chunk], and the empty text
    when [chunk] is missing. *)
Theorem thinking_frame_appends_or_updates (now : Z) (data : EventData.t) :
  (∀ steps : list AgentStep.t,
     (∀ l, last steps = Some l → AgentStep.status l = "completed") →
     ∃ s, thinkingSteps now data steps = steps ++ [s] ∧
          length (thinkingSteps now data steps) = length steps + 1 ∧
          AgentStep.status s = "thinking" ∧
          AgentStep.stepNumber s = of_nat (length steps + 1) ∧
          AgentStep.thinking s =
            Some (js_or (EventData.full data) (js_or (EventData.chunk data) "")))
  ∧
  (∀ (init : list AgentStep.t) (l : AgentStep.t),
     AgentStep.status l ≠ "completed" →
     thinkingSteps now data (init ++ [l]) = init ++ [withThinking data l] ∧
     length (thinkingSteps now data (init ++ [l])) = length (init ++ [l]) ∧
     AgentStep.thinkingDuration (withThinking data l) = EventData.duration data ∧
     AgentStep.status (withThinking data l) = "thinking")
  ∧
  (∀ st : SessionState,
     messages st ≠ [] →
     currentSteps (onThinking now data st) =
       thinkingSteps now data (currentSteps st))
  ∧
  ((∀ l, AgentStep.thinking (withThinking data l) = Some (thinkingContent data)) ∧
   thinkingContent data =
     js_or (EventData.full data) (js_or (EventData.chunk data) "") ∧
   (∀ f, EventData.full data = Some f → f ≠ "" → thinkingContent data = f) ∧
   (EventData.full data = None ∨ EventData.full data = Some "" →
    ∀ c, EventData.chunk data = Some c → thinkingContent data = c) ∧
   (EventData.full data = None ∨ EventData.full data = Some "" →
    EventData.chunk data = None → thinkingContent data = "")).
Proof.
  split_and!.
  - intros steps Hclosed.
    destruct (thinkingSteps_closed now data steps Hclosed)
      as (s & Heq & Hst & Hnum & Hth & _).
    exists s. rewrite Heq, length_app. simpl. by repeat split.
  - intros init l Hopen. rewrite thinkingSteps_open by done.
    rewrite !length_app. by repeat split.
  - apply onThinking_currentSteps.
  - done.
  - done.
  - intros f Hfull Hf. unfold thinkingContent. rewrite Hfull. simpl.
    unfold falsy, falsy_string. by destruct (String.eqb_spec f "").
  - intros Hfull c Hchunk. unfold thinkingContent. rewrite Hchunk.
    replace (js_or (Some c) "") with c by (by destruct c).
    by destruct Hfull as [-> | ->].
  - intros Hfull Hchunk. unfold thinkingContent. rewrite Hchunk.
    by destruct Hfull as [-> | ->].
Qed.

(** C1 as the specification words it fails on a thinking frame whose
    [full] is the empty text: the step gets the text of [chunk], both when
    the frame opens a step and when it rewrites the open one, where
    [full ?? chunk] is the empty text. *)
Lemma thinking_frame_with_empty_full :
  EventData.full emptyFullData = Some "" ∧
  EventData.chunk emptyFullData = Some "c1" ∧
  specThinkingContent emptyFullData = Some "" ∧
  AgentStep.thinking <$> thinkingSteps 7 emptyFullData [] = [Some "c1"] ∧
  AgentStep.thinking <$> thinkingSteps 7 emptyFullData [openStep] = [Some "c1"] ∧
  AgentStep.thinking <$> thinkingSteps 7 emptyFullData []
    ≠ [specThinkingContent emptyFullData] ∧
  AgentStep.thinking <$> currentSteps (onThinking 7 emptyFullData runningState)
    = [Some "c1"].
Proof. split_and!; try reflexivity. vm_compute. discriminate. Qed.

(** C2. An action frame on a non-empty step list writes the frame's action
    and duration into the last step and sets its status to 'completed',
    leaving the other steps and the length as they are; on an empty list it
    stores nothing: the reducer yields no list, and the store that
    [onAction] returns is the store it was given.  The list is the one of
    the store's last message, and the result is stored there. *)
Theorem action_frame_closes_last_step (data : EventData.t) :
  (∀ (init : list AgentStep.t) (l : AgentStep.t),
     actionSteps data (init ++ [l]) = Some (init ++ [withAction data l]) ∧
     length (init ++ [withAction data l]) = length (init ++ [l]) ∧
     AgentStep.action (withAction data l) = EventData.action data ∧
     AgentStep.actionDuration (withAction data l) = EventData.duration data ∧
     AgentStep.status (withAction data l) = "completed")
  ∧ actionSteps data [] = None
  ∧ (∀ st : SessionState, currentSteps st = [] → onAction data st = st)
  ∧ (∀ (st : SessionState) (init : list AgentStep.t) (l : AgentStep.t),
       messages st ≠ [] →
       currentSteps st = init ++ [l] →
       currentSteps (onAction data st) = init ++ [withAction data l]).
Proof.
  split_and!; try done.
  - intros init l. split_and!; try done.
    + apply actionSteps_snoc.
    + by rewrite !length_app.
  - intros st Hempty. unfold onAction. by rewrite Hempty.
  - intros st init l Hne Hsteps.
    rewrite onAction_currentSteps by done. simpl.
    by rewrite Hsteps, actionSteps_snoc.
Qed.

Lemma reduce_invariant (steps : list AgentStep.t) (f : StepFrame) :
  contiguous steps ∧ onlyLastOpen steps →
  contiguous (reduce steps f) ∧ onlyLastOpen (reduce steps f).
Proof.
  intros [Hc Ho]. destruct f as [now data|data]; simpl.
  - destruct (last steps) as [l|] eqn:Hlast.
    + apply last_Some in Hlast as [init ->].
      destruct (decide (AgentStep.status l = "completed")) as [Hdone|Hopen].
      * destruct (thinkingSteps_closed now data (init ++ [l]))
          as (s & -> & _ & Hnum & _).
        { intros l'. rewrite last_snoc. by intros [= <-]. }
        split; [by apply contiguous_snoc|].
        apply onlyLastOpen_snoc. apply onlyLastOpen_closed; [done|].
        intros l'. rewrite last_snoc. by intros [= <-].
      * rewrite thinkingSteps_open by done.
        apply contiguous_init in Hc as [Hc Hnum].
        split; [by apply contiguous_snoc|].
        by apply onlyLastOpen_snoc, (onlyLastOpen_snoc init l).
    + apply last_None in Hlast as ->.
      destruct (thinkingSteps_closed now data []) as (s & -> & _ & Hnum & _).
      { by intros l. }
      split; [by apply contiguous_snoc|].
      apply onlyLastOpen_snoc. by intros i x.
  - destruct (last steps) as [l|] eqn:Hlast.
    + apply last_Some in Hlast as [init ->].
      rewrite actionSteps_snoc. simpl.
      apply contiguous_init in Hc as [Hc Hnum].
      split; [by apply contiguous_snoc|].
      by apply onlyLastOpen_snoc, (onlyLastOpen_snoc init l).
    + apply last_None in Hlast as ->. by split.
Qed.

Lemma updateLastMessage_nonempty (u : Updates.t) (st : SessionState) :
  messages st ≠ [] → messages (updateLastMessage u st) ≠ [].
Proof.
  unfold updateLastMessage. destruct (last (messages st)); simpl; [|done].
  intros Hne Hnil. apply Hne.
  apply (f_equal length) in Hnil. rewrite length_insert in Hnil.
  by destruct (messages st).
Qed.

Lemma applyFrame_nonempty (st : SessionState) (f : StepFrame) :
  messages st ≠ [] → messages (applyFrame st f) ≠ [].
Proof.
  destruct f as [now data|data]; simpl; intros Hne.
  - by apply updateLastMessage_nonempty.
  - unfold onAction. destruct (actionSteps _ _); [|done].
    by apply updateLastMessage_nonempty.
Qed.

Lemma applyFrame_currentSteps (st : SessionState) (f : StepFrame) :
  messages st ≠ [] →
  currentSteps (applyFrame st f) = reduce (currentSteps st) f.
Proof.
  destruct f as [now data|data]; simpl; intros Hne.
  - by apply onThinking_currentSteps.
  - by rewrite onAction_currentSteps.
Qed.

Lemma foldl_applyFrame_currentSteps (frames : list StepFrame) (st : SessionState) :
  messages st ≠ [] →
  currentSteps (foldl applyFrame st frames) = foldl reduce (currentSteps st) frames.
Proof.
  revert st. induction frames as [|f frames IH]; intros st Hne; simpl; [done|].
  rewrite IH by (by apply applyFrame_nonempty).
  by rewrite applyFrame_currentSteps.
Qed.

Lemma foldl_reduce_invariant (frames : list StepFrame) (steps : list AgentStep.t) :
  contiguous steps ∧ onlyLastOpen steps →
  contiguous (foldl reduce steps frames) ∧ onlyLastOpen (foldl reduce steps frames).
Proof.
  revert steps. induction frames as [|f frames IH]; intros steps Hinv; simpl.
  - done.
  - by apply IH, reduce_invariant.
Qed.

(** C3. Whatever thinking and action frames the reducer applies from the
    empty step list, in the resulting list step [i] (counting from 1)
    carries the number [i], and every step but the last has status
    'completed': at most one step, the last one, is open.  The same holds of
    the steps of the store's last message when the handlers run on a store
    whose last message has no steps yet. *)
Theorem reducer_keeps_steps_contiguous (frames : list StepFrame) :
  (contiguous (foldl reduce [] frames) ∧ onlyLastOpen (foldl reduce [] frames))
  ∧
  (∀ st : SessionState,
     messages st ≠ [] → currentSteps st = [] →
     contiguous (currentSteps (foldl applyFrame st frames)) ∧
     onlyLastOpen (currentSteps (foldl applyFrame st frames))).
Proof.
  assert (contiguous [] ∧ onlyLastOpen []) as Hempty.
  { split; by intros i s. }
  split.
  - by apply foldl_reduce_invariant.
  - intros st Hne Hsteps.
    rewrite foldl_applyFrame_currentSteps, Hsteps by done.
    by apply foldl_reduce_invariant.
Qed.

(** ** Properties of [split] at the frame separator *)

Lemma string_ind2 (P : string → Prop) :
  P "" →
  (∀ c, P (String c "")) →
  (∀ c d s, P s → P (String d s) → P (String c (String d s))) →
  ∀ s, P s.
Proof.
  intros H0 H1 H2 s.
  cut (P s ∧ ∀ c, P (String c s)); [by intros []|].
  induction s as [|d s [IHs IHc]]; [by split|].
  split; [apply IHc|]. intros c. by apply H2.
Qed.

Local Arguments Ascii.eqb : simpl never.

Lemma split_one (c : ascii) : split NLNL (String c "") = [String c ""].
Proof. unfold split. simpl. by destruct (Ascii.eqb "010" c). Qed.

Lemma split_two (c d : ascii) (s : string) :
  split NLNL (String c (String d s)) =
  if Ascii.eqb "010" c && Ascii.eqb "010" d
  then "" :: split NLNL s
  else cons_head c (split NLNL (String d s)).
Proof.
  unfold split. simpl.
  by destruct (Ascii.eqb "010" c), (Ascii.eqb "010" d).
Qed.

Lemma split_nonempty (s : string) : ∃ x r, split NLNL s = x :: r.
Proof.
  induction s as [|c|c d s IHs IHd] using string_ind2.
  - by eexists _, _.
  - rewrite split_one. by eexists _, _.
  - rewrite split_two. destruct (_ && _); [by eexists _, _|].
    destruct IHd as (x & r & ->). by eexists _, _.
Qed.

(** The first piece of a text starts with the text's first character,
    unless the text starts with a separator. *)
Lemma split_head (d : ascii) (s : string) :
  ∃ x r, split NLNL (String d s) = x :: r ∧ (x = "" ∨ ∃ x', x = String d x').
Proof.
  destruct s as [|e s].
  - rewrite split_one. eexists _, _. split; [done|]. right. by eexists.
  - rewrite split_two. destruct (_ && _).
    + eexists _, _. split; [done|]. by left.
    + destruct (split_nonempty (String e s)) as (x & r & ->).
      eexists _, _. split; [done|]. right. by eexists.
Qed.

Lemma js_or_text (x : string) : js_or (Some x) "" = x.
Proof. by destruct x. Qed.

Lemma append_assoc (a b c : string) : (a +:+ b) +:+ c = a +:+ (b +:+ c).
Proof.
  induction a as [|x a IH]; [done|].
  change (String x ((a +:+ b) +:+ c) = String x (a +:+ (b +:+ c))).
  by rewrite IH.
Qed.

Lemma append_empty (a : string) : a +:+ "" = a.
Proof.
  induction a as [|x a IH]; [done|].
  change (String x (a +:+ "") = String x a). by rewrite IH.
Qed.

(** The pieces, joined by the separator, give the text back: the events
    with their terminators, then the kept buffer. *)
Lemma wire_cons (f : string) (l : list string) :
  wire (f :: l) = f +:+ NLNL +:+ wire l.
Proof. done. Qed.

Lemma removelast_cons2 {A} (a x : A) (r : list A) :
  removelast (a :: x :: r) = a :: removelast (x :: r).
Proof. done. Qed.

Lemma split_wire (s : string) :
  s = wire (removelast (split NLNL s)) +:+ js_or (last (split NLNL s)) "".
Proof.
  induction s as [|c|c d s IHs IHd] using string_ind2.
  - done.
  - rewrite split_one. done.
  - rewrite split_two. destruct (_ && _) eqn:Hsep.
    + apply andb_prop in Hsep as [<-%Ascii.eqb_eq <-%Ascii.eqb_eq].
      destruct (split_nonempty s) as (x & r & Hs). rewrite Hs in *.
      rewrite removelast_cons2, last_cons_cons, wire_cons.
      rewrite append_assoc, append_assoc, <- IHs. done.
    + destruct (split_nonempty (String d s)) as (x & r & Hs). rewrite Hs in *.
      destruct r as [|y r].
      * change (String d s = js_or (Some x) "") in IHd.
        change (String c (String d s) = js_or (Some (String c x)) "").
        rewrite js_or_text in *. by rewrite IHd.
      * unfold cons_head.
        rewrite removelast_cons2, last_cons_cons, wire_cons.
        rewrite removelast_cons2, last_cons_cons, wire_cons in IHd.
        rewrite append_assoc, append_assoc in IHd.
        rewrite append_assoc, append_assoc.
        change (String c x +:+ ?t) with (String c (x +:+ t)).
        by rewrite <- IHd.
Qed.

Lemma split_uncut (s x : string) : split NLNL s = [x] → x = s.
Proof.
  intros Hs. rewrite (split_wire s), Hs.
  change (x = js_or (Some x) ""). by rewrite js_or_text.
Qed.

(** Cutting commutes with the arrival of more text: the pieces of [s +:+ t]
    are the closed pieces of [s], then the pieces of what [s] left open
    followed by [t]. *)
Lemma split_app (s t : string) :
  split NLNL (s +:+ t) =
  removelast (split NLNL s) ++ split NLNL (js_or (last (split NLNL s)) "" +:+ t).
Proof.
  induction s as [|c|c d s IHs IHd] using string_ind2.
  - done.
  - rewrite split_one. done.
  - change (String c (String d s) +:+ t) with (String c (String d (s +:+ t))).
    rewrite !split_two. destruct (_ && _) eqn:Hsep.
    + destruct (split_nonempty s) as (x & r & Hs).
      rewrite IHs, Hs. by rewrite removelast_cons2, last_cons_cons.
    + change (String d (s +:+ t)) with (String d s +:+ t). rewrite IHd.
      destruct (split_nonempty (String d s)) as (x & r & Hs). rewrite Hs.
      destruct r as [|y r].
      * apply split_uncut in Hs as ->.
        change (cons_head c (split NLNL (js_or (Some (String d s)) "" +:+ t)) =
                split NLNL (js_or (Some (String c (String d s))) "" +:+ t)).
        rewrite !js_or_text.
        change (String c (String d s) +:+ t) with (String c (String d (s +:+ t))).
        by rewrite split_two, Hsep.
      * unfold cons_head at 2.
        by rewrite !removelast_cons2, !last_cons_cons.
Qed.

(** No piece holds a separator. *)
Lemma split_includes (s : string) :
  Forall (λ e, includes NLNL e = false) (split NLNL s).
Proof.
  induction s as [|c|c d s IHs IHd] using string_ind2.
  - by repeat constructor.
  - rewrite split_one. repeat constructor. simpl.
    by destruct (Ascii.eqb "010" c).
  - rewrite split_two. destruct (_ && _) eqn:Hsep; [by constructor|].
    destruct (split_head d s) as (x & r & Hs & Hx). rewrite Hs in *.
    apply Forall_cons in IHd as [Hx' Hr]. simpl. constructor; [|done].
    destruct Hx as [->|[x' ->]].
    + simpl. by destruct (Ascii.eqb "010" c).
    + change (includes NLNL (String c (String d x')))
        with (Ascii.eqb "010" c && (Ascii.eqb "010" d && true)
              || includes NLNL (String d x')).
      rewrite Hx', andb_true_r, Hsep. done.
Qed.

(** A clean frame followed by its terminator is cut off as it is. *)
Lemma split_clean (f rest : string) :
  clean f = true →
  split NLNL (f +:+ NLNL +:+ rest) = f :: split NLNL rest.
Proof.
  unfold clean. induction f as [|c|c d f IHf IHd] using string_ind2; intros Hclean.
  - done.
  - change (String c "" +:+ NLNL +:+ rest)
      with (String c (String "010" (String "010" rest))).
    rewrite split_two.
    apply andb_prop in Hclean as [_ Hend]. simpl in Hend.
    apply negb_true_iff in Hend. rewrite Hend. cbn [andb].
    by rewrite split_two.
  - change (String c (String d f) +:+ NLNL +:+ rest)
      with (String c (String d (f +:+ NLNL +:+ rest))).
    rewrite split_two.
    apply andb_prop in Hclean as [Hinc Hend].
    change (includes NLNL (String c (String d f)))
      with (Ascii.eqb "010" c && (Ascii.eqb "010" d && true)
            || includes NLNL (String d f)) in Hinc.
    rewrite andb_true_r in Hinc.
    apply negb_true_iff, orb_false_iff in Hinc as [-> Hinc].
    change (String d (f +:+ NLNL +:+ rest)) with (String d f +:+ NLNL +:+ rest).
    rewrite IHd; [done|].
    rewrite Hinc. simpl negb at 1. by destruct f.
Qed.

(** The frames of the wire format come out one by one, and what follows the
    last terminator is cut on its own. *)
Lemma split_wire_clean (frames : list string) (rest : string) :
  Forall (λ f, clean f = true) frames →
  split NLNL (wire frames +:+ rest) = frames ++ split NLNL rest.
Proof.
  induction 1 as [|f frames Hf _ IH]; [done|].
  simpl wire. rewrite !append_assoc, split_clean by done.
  by rewrite IH.
Qed.

(** A chunk made of whole frames leaves nothing in the buffer. *)
Lemma complete_wire (frames : list string) :
  Forall (λ f, clean f = true) frames → complete (wire frames).
Proof.
  intros Hclean. unfold complete, feed. cbn [snd].
  change ("" +:+ wire frames) with (wire frames).
  rewrite <- (append_empty (wire frames)), split_wire_clean by done.
  change (split NLNL "") with [""].
  by rewrite last_snoc.
Qed.

(** ** The frame parser, chunk by chunk *)

Lemma feed_start (chunk : string) :
  feed "" chunk =
  (removelast (split NLNL chunk), js_or (last (split NLNL chunk)) "").
Proof. done. Qed.

(** Feeding a text in two chunks cuts the same events and keeps the same
    buffer as feeding it at once, wherever the text is cut. *)
Lemma feed_app (c1 c2 : string) :
  feed "" (c1 +:+ c2) =
  ((feed "" c1).1 ++ (feed (feed "" c1).2 c2).1, (feed (feed "" c1).2 c2).2).
Proof.
  rewrite !feed_start. unfold feed. simpl. rewrite split_app.
  destruct (split_nonempty (js_or (last (split NLNL c1)) "" +:+ c2))
    as (x & r & ->).
  f_equal.
  - by apply removelast_app.
  - by rewrite last_app_cons.
Qed.

(** What a turn of the loop takes from the buffer are whole frames: the
    events with their terminators, followed by the kept buffer, are the text
    it was given; no event and no kept buffer holds a terminator. *)
Lemma feed_consumes_whole_frames (buffer chunk : string) :
  buffer +:+ chunk = wire (feed buffer chunk).1 +:+ (feed buffer chunk).2 ∧
  Forall (λ e, includes NLNL e = false) (feed buffer chunk).1 ∧
  includes NLNL (feed buffer chunk).2 = false.
Proof.
  unfold feed. simpl. split; [apply split_wire|].
  pose proof (split_includes (buffer +:+ chunk)) as Hall.
  destruct (split_nonempty (buffer +:+ chunk)) as (x & r & Hs).
  rewrite Hs in *. clear Hs.
  assert (∃ init z, x :: r = init ++ [z]) as (init & z & Heq).
  { destruct (last (x :: r)) as [z|] eqn:Hl.
    - apply last_Some in Hl as [init ?]. by exists init, z.
    - by apply last_None in Hl. }
  rewrite Heq in *. rewrite removelast_last, last_snoc, js_or_text.
  apply Forall_app in Hall as [Hinit Hz].
  split; [done|]. by apply Forall_cons in Hz as [Hz _].
Qed.



(** ** The lines of a frame *)

Lemma split_NL_cons (c : ascii) (s : string) :
  split NL (String c s) =
  if Ascii.eqb "010" c then "" :: split NL s else cons_head c (split NL s).
Proof. unfold split. simpl. by destruct (Ascii.eqb "010" c). Qed.

Lemma blank_lines (s : string) :
  blank s = true → Forall (λ line, blank line = true) (split NL s).
Proof.
  induction s as [|c s IH]; intros Hblank.
  - by repeat constructor.
  - simpl in Hblank. apply andb_prop in Hblank as [Hc Hs].
    rewrite split_NL_cons. specialize (IH Hs).
    destruct (Ascii.eqb "010" c); [by constructor|].
    destruct (split NL s) as [|x r]; simpl.
    + repeat constructor. simpl. by rewrite Hc.
    + apply Forall_cons in IH as [Hx Hr]. constructor; [|done].
      simpl. by rewrite Hc, Hx.
Qed.

Lemma scanLine_blank (acc : string * string) (line : string) :
  blank line = true → scanLine acc line = acc.
Proof.
  destruct line as [|c line]; [done|].
  simpl. intros [Hc _]%andb_prop. unfold scanLine.
  assert (Ascii.eqb "e" c = false ∧ Ascii.eqb "d" c = false) as [He Hd].
  { by destruct c as [[] [] [] [] [] [] [] []]. }
  simpl. by rewrite He, Hd.
Qed.

(** A frame of white space has no event line and no data line: the test on
    [trim()] in the loop never decides the outcome. *)
Lemma parseLines_blank (eventStr : string) :
  blank eventStr = true → parseLines eventStr = ("", "").
Proof.
  intros Hblank%blank_lines. unfold parseLines.
  induction Hblank as [|line lines Hline _ IH]; [done|].
  simpl. by rewrite scanLine_blank.
Qed.

(** ** Malformed frames *)

Section MalformedFrames.

Variable JSON_parse : string → option EventData.t.

Lemma processEvent_malformed (now : Z) (st : SessionState) (bad : string) :
  malformed JSON_parse bad → processEvent JSON_parse now st bad = st.
Proof.
  unfold malformed, processEvent.
  destruct (blank bad); [done|].
  destruct (parseLines bad) as [eventType eventData]. simpl.
  intros [->|[->|Hparse]].
  - done.
  - by rewrite orb_true_r.
  - rewrite Hparse. by destruct (_ || _).
Qed.

Lemma processChunk_events (now : Z) (st : SessionState) (chunk : string)
    (events : list string) (rest : string) :
  split NLNL chunk = events ++ [rest] →
  processChunk JSON_parse now ("", st) chunk =
  (rest, foldl (processEvent JSON_parse now) st events).
Proof.
  intros Hs. unfold processChunk. cbn [fst snd].
  by rewrite feed_start, Hs, removelast_last, last_snoc, js_or_text.
Qed.

Lemma processEvent_without_trim (now : Z) (st : SessionState)
    (eventStr : string) :
  processEvent JSON_parse now st eventStr =
  if falsy (parseLines eventStr).1 || falsy (parseLines eventStr).2 then st
  else
    match JSON_parse (parseLines eventStr).2 with
    | Some data => dispatch now (parseLines eventStr).1 data st
    | None => st
    end.
Proof.
  unfold processEvent. destruct (blank eventStr) eqn:Hblank.
  - by rewrite parseLines_blank.
  - by destruct (parseLines eventStr).
Qed.

(** C5. Take a buffer whose frames are [pre], then a frame [bad] that has
    no event line, or no data line, or data that JSON.parse rejects, then
    [post]; and a buffer with the same frames but for [bad].  The loop
    leaves the same store and the same kept buffer on both: the frames of
    [post] are dispatched after those of [pre] as if [bad] were not there,
    and the step count is the same. *)
Theorem malformed_frame_is_dropped (now : Z) (st : SessionState)
    (buffer buffer' : string) (pre post : list string) (bad rest : string) :
  split NLNL buffer = pre ++ bad :: post ++ [rest] →
  split NLNL buffer' = pre ++ post ++ [rest] →
  malformed JSON_parse bad →
  processChunk JSON_parse now ("", st) buffer =
    processChunk JSON_parse now ("", st) buffer' ∧
  (processChunk JSON_parse now ("", st) buffer).2 =
    foldl (processEvent JSON_parse now)
      (foldl (processEvent JSON_parse now) st pre) post ∧
  length (currentSteps (processChunk JSON_parse now ("", st) buffer).2) =
    length (currentSteps (processChunk JSON_parse now ("", st) buffer').2).
Proof.
  intros Hbuffer Hbuffer' Hbad.
  rewrite (processChunk_events now st buffer (pre ++ bad :: post) rest)
    by (by rewrite Hbuffer, <- app_assoc).
  rewrite (processChunk_events now st buffer' (pre ++ post) rest)
    by (by rewrite Hbuffer', <- app_assoc).
  rewrite !foldl_app. simpl.
  by rewrite processEvent_malformed.
Qed.

End MalformedFrames.

(** Scenario D: an [event:] line without a [data:] line between two
    thinking frames. *)
Lemma malformed_frame_is_dropped_witness :
  let f1 := "event: thinking" +:+ NL +:+ "data: {p1" in
  let bad := "event: thinking" in
  let f2 := "event: thinking" +:+ NL +:+ "data: {p2" in
  let buffer := wire [f1; bad; f2] in
  let buffer' := wire [f1; f2] in
  malformed sampleParse bad ∧
  processChunk sampleParse 7 ("", runningState) buffer =
    processChunk sampleParse 7 ("", runningState) buffer' ∧
  length (currentSteps (processChunk sampleParse 7 ("", runningState) buffer).2) = 1.
Proof.
  intros f1 bad f2 buffer buffer'.
  assert (malformed sampleParse bad) as Hbad by (right; left; reflexivity).
  split; [exact Hbad|].
  pose proof (malformed_frame_is_dropped sampleParse 7 runningState
    buffer buffer' [f1] [f2] bad "" eq_refl eq_refl Hbad) as (H1 & _ & H3).
  split; [exact H1|]. rewrite H3. reflexivity.
Defined.

(** ** The stored history *)

Lemma mapFrom_spec {A B} (f : nat → A → Completion B) (l : list A)
    (index : nat) :
  match mapFrom f index l with
  | Returns ys =>
      length ys = length l ∧
      ∀ i x, l !! i = Some x →
        ∃ y, ys !! i = Some y ∧ f (index + i) x = Returns y
  | Throws e => ∃ i x, l !! i = Some x ∧ f (index + i) x = Throws e
  end.
Proof.
  revert index. induction l as [|x l IH]; intros index; simpl.
  - split; [done|]. by intros i x Hi.
  - destruct (f index x) as [y|e] eqn:Hx.
    + specialize (IH (S index)).
      destruct (mapFrom f (S index) l) as [ys|e].
      * destruct IH as [Hlen IH]. split; [simpl; by rewrite Hlen|].
        intros [|i] x' Hi; simpl in Hi.
        -- injection Hi as <-. exists y. by rewrite Nat.add_0_r.
        -- destruct (IH i x' Hi) as (y' & Hy & Hf). exists y'.
           split; [done|]. by replace (index + S i) with (S index + i) by lia.
      * destruct IH as (i & x' & Hi & Hf). exists (S i), x'.
        split; [done|]. by replace (index + S i) with (S index + i) by lia.
    + exists 0, x. by rewrite Nat.add_0_r.
Qed.

Lemma historyStep_throws (conv : ConversationRecord.t) (index : nat)
    (step : JSON) (e : string) :
  historyStep conv index step = Throws e ↔ step = JNull ∧ e = "TypeError".
Proof.
  split.
  - by destruct step; intros [= <-].
  - by intros [-> ->].
Qed.

(** A steps array without [null] is converted entry by entry. *)
Lemma historySteps_array (conv : ConversationRecord.t) (a : JSRecord)
    (entries : list JSON) :
  ConversationRecord.role conv = "assistant" →
  ConversationRecord.action conv = Some a →
  prop "steps" a = Some (JArr entries) →
  JNull ∉ entries →
  ∃ out,
    historySteps conv = Returns (Some out) ∧ length out = length entries ∧
    ∀ i entry, entries !! i = Some entry →
      ∃ r, out !! i = Some r ∧ historyStep conv i entry = Returns r.
Proof.
  intros Hrole Haction Hsteps Hnull. unfold historySteps.
  rewrite Hrole, Haction. simpl. rewrite Hsteps.
  pose proof (mapFrom_spec (historyStep conv) entries 0) as Hmap.
  destruct (mapFrom (historyStep conv) 0 entries) as [out|e].
  - exists out. by destruct Hmap.
  - destruct Hmap as (i & x & Hi & Hx).
    apply historyStep_throws in Hx as [-> _].
    destruct Hnull. by apply list_elem_of_lookup_2 in Hi.
Qed.

(** The conversion of a row throws exactly on an assistant row whose steps
    array holds [null]. *)
Lemma historySteps_throws (conv : ConversationRecord.t) (e : string) :
  historySteps conv = Throws e ↔ nullStep conv ∧ e = "TypeError".
Proof.
  unfold historySteps, nullStep. split.
  - destruct (String.eqb_spec (ConversationRecord.role conv) "assistant")
      as [Hrole|]; [|done].
    destruct (ConversationRecord.action conv) as [a|] eqn:Haction; [|done].
    simpl.
    destruct (prop "steps" a) as [[| | | |entries|]|] eqn:Hsteps; try done.
    pose proof (mapFrom_spec (historyStep conv) entries 0) as Hmap.
    destruct (mapFrom (historyStep conv) 0 entries) as [out|e']; [done|].
    intros [= ->]. destruct Hmap as (i & x & Hi & Hx).
    apply historyStep_throws in Hx as [-> ->].
    split; [|done]. split; [done|]. exists a, entries.
    split_and!; try done. by apply list_elem_of_lookup_2 in Hi.
  - intros [(Hrole & a & entries & Haction & Hsteps & Hnull) ->].
    rewrite Hrole, Haction. simpl. rewrite Hsteps.
    pose proof (mapFrom_spec (historyStep conv) entries 0) as Hmap.
    apply list_elem_of_lookup_1 in Hnull as [i Hi].
    destruct (mapFrom (historyStep conv) 0 entries) as [out|e'].
    + destruct Hmap as [_ Hmap]. by destruct (Hmap i JNull Hi) as (y & _ & ?).
    + destruct Hmap as (j & x & _ & Hx).
      by apply historyStep_throws in Hx as [_ ->].
Qed.

(** C4, as the store converts a row.  An assistant row whose action holds
    a steps array without [null] yields one step per entry, in order, with
    the values that the entry has for thinking and action, of whatever type;
    the step number is the entry's unless that is missing or false in a
    condition ([null], [false], 0, the empty text), and then the position
    plus 1; the status is the entry's unless that is missing or false in a
    condition, and then 'completed'.  When the array holds [null] the
    conversion throws a TypeError.  A row without a steps array whose
    thinking is a non-empty text or whose action is present yields exactly
    one step, numbered 1 and completed, with both fields.  A row without a
    steps array, with no action and with a thinking that is missing or empty
    yields no steps. *)
Theorem history_steps_by_shape (conv : ConversationRecord.t) :
  ConversationRecord.role conv = "assistant" →
  (∀ a entries,
     ConversationRecord.action conv = Some a →
     prop "steps" a = Some (JArr entries) →
     (JNull ∈ entries → historySteps conv = Throws "TypeError") ∧
     (JNull ∉ entries →
      ∃ out,
        historySteps conv = Returns (Some out) ∧ length out = length entries ∧
        ∀ i entry, entries !! i = Some entry →
          ∃ r, out !! i = Some r ∧
               HistoryStep.thinking r = member "thinking" entry ∧
               HistoryStep.action r = member "action" entry ∧
               HistoryStep.stepNumber r =
                 match member "stepNumber" entry with
                 | Some n => if falsy n then JNum (of_nat (i + 1)) else n
                 | None => JNum (of_nat (i + 1))
                 end ∧
               HistoryStep.status r =
                 match member "status" entry with
                 | Some x => if falsy x then JStr "completed" else x
                 | None => JStr "completed"
                 end))
  ∧
  ((∀ l, ConversationRecord.action conv ≫= prop "steps" ≠ Some (JArr l)) →
   (∃ t, ConversationRecord.thinking conv = Some t ∧ t ≠ "")
   ∨ is_Some (ConversationRecord.action conv) →
   ∃ s, historySteps conv = Returns (Some [s]) ∧
        HistoryStep.stepNumber s = JNum (of_nat 1) ∧
        HistoryStep.status s = JStr "completed" ∧
        HistoryStep.thinking s = JStr <$> ConversationRecord.thinking conv ∧
        HistoryStep.action s = JObj <$> ConversationRecord.action conv)
  ∧
  ((∀ l, ConversationRecord.action conv ≫= prop "steps" ≠ Some (JArr l)) →
   ConversationRecord.thinking conv = None
   ∨ ConversationRecord.thinking conv = Some "" →
   ConversationRecord.action conv = None →
   historySteps conv = Returns None).
Proof.
  intros Hrole. split_and!.
  - intros a entries Haction Hsteps. split.
    + intros Hnull. apply historySteps_throws. split; [|done].
      split; [done|]. by exists a, entries.
    + intros Hnull.
      destruct (historySteps_array conv a entries Hrole Haction Hsteps Hnull)
        as (out & Hout & Hlen & Hentries).
      exists out. split_and!; try done.
      intros i entry Hi. destruct (Hentries i entry Hi) as (r & Hr & Hstep).
      exists r. split; [done|].
      destruct entry; try discriminate; injection Hstep as <-; by split_and!.
  - intros Hlegacy Hpresent. exists (legacyStep conv).
    split; [|by repeat split].
    unfold historySteps. rewrite Hrole. simpl.
    assert (truthy (ConversationRecord.thinking conv)
            || truthy (ConversationRecord.action conv) = true) as ->.
    { destruct Hpresent as [(t & -> & Ht)|[a ->]].
      - simpl. unfold falsy, falsy_string.
        by destruct (String.eqb_spec t "").
      - by rewrite orb_true_r. }
    destruct (ConversationRecord.action conv ≫= prop "steps")
      as [[| | | |l|]|] eqn:Hsteps; try done.
    by destruct (Hlegacy l).
  - intros Hlegacy Hthinking Haction.
    unfold historySteps. rewrite Hrole, Haction. simpl.
    by destruct Hthinking as [-> | ->].
Qed.

Lemma history_steps_by_shape_witness :
  let legacy :=
    ConversationRecord.mk "c3" "s1" "assistant" "ok" (Some "plan")
      (Some [("action", JStr "tap")]) "2025-01-01" in
  ConversationRecord.role legacy = "assistant" ∧
  (∃ s, historySteps legacy = Returns (Some [s]) ∧
        HistoryStep.stepNumber s = JNum (of_nat 1) ∧
        HistoryStep.status s = JStr "completed" ∧
        HistoryStep.thinking s = Some (JStr "plan") ∧
        HistoryStep.action s = Some (JObj [("action", JStr "tap")])) ∧
  historySteps nullStepRow = Throws "TypeError" ∧
  (∃ s, historySteps textNumberRow = Returns (Some [s]) ∧
        HistoryStep.stepNumber s = JStr "3" ∧
        HistoryStep.action s = Some (JStr "tap") ∧
        HistoryStep.status s = JStr "completed").
Proof.
  intros legacy. split_and!.
  - reflexivity.
  - destruct (history_steps_by_shape legacy eq_refl) as (_ & Hlegacy & _).
    apply Hlegacy.
    + intros l. vm_compute. discriminate.
    + left. exists "plan". split; [reflexivity|discriminate].
  - destruct (history_steps_by_shape nullStepRow eq_refl) as (Harray & _).
    destruct (Harray _ _ eq_refl eq_refl) as [Hnull _].
    apply Hnull. repeat constructor.
  - destruct (history_steps_by_shape textNumberRow eq_refl) as (Harray & _).
    destruct (Harray _ _ eq_refl eq_refl) as [_ Hentries].
    destruct Hentries as (out & Hout & Hlen & Hentries).
    + by intros [[=]|[]%elem_of_nil]%elem_of_cons.
    + destruct out as [|s [|]]; try discriminate.
      exists s. split; [done|].
      destruct (Hentries 0 _ eq_refl) as (r & [= <-] & _ & Ha & Hn & Hs).
      by split_and!.
Defined.

(** C4 as the specification words it fails on a stored step numbered 0 with
    an empty status, which the store renumbers and completes, and on a
    legacy row whose thinking is the empty text, which yields no step. *)
Lemma history_zero_number_and_empty_text :
  historySteps zeroStepRow ≠ specHistorySteps zeroStepRow ∧
  (∃ s, historySteps zeroStepRow = Returns (Some [s]) ∧
        HistoryStep.stepNumber s = JNum (of_nat 1) ∧
        HistoryStep.status s = JStr "completed") ∧
  (∃ s, specHistorySteps zeroStepRow = Returns (Some [s]) ∧
        HistoryStep.stepNumber s = JNum 0%Q ∧
        HistoryStep.status s = JStr "") ∧
  historySteps emptyThinkingRow = Returns None ∧
  specHistorySteps emptyThinkingRow = Returns (Some [legacyStep emptyThinkingRow]).
Proof.
  split_and!; try reflexivity.
  - vm_compute. discriminate.
  - eexists. by split_and!.
  - eexists. by split_and!.
Qed.

(** ** The task life cycle *)

Lemma updateLastMessage_snoc (u : Updates.t) (st : SessionState)
    (ms : list Message.t) (m : Message.t) :
  messages st = ms ++ [m] →
  messages (updateLastMessage u st) = ms ++ [merge m u].
Proof.
  intros Hms. unfold updateLastMessage. rewrite Hms, last_snoc. simpl.
  apply insert_last.
Qed.

(** C6, as the store decides.  [sendTask] changes nothing and opens
    nothing when a task is processing or no session is selected.  Otherwise
    it appends the user message and the streaming placeholder, sets
    [isProcessing] and opens the stream, and the takeover state has no part
    in that: it is not read, and it is left as it was. *)
Theorem sendTask_rejected_when_busy_or_without_session (now : Z) (task : string)
    (st : SessionState) :
  (isProcessing st = true ∨ currentSession st = None →
   rejected (sendTask_begin now task st) st)
  ∧
  (∀ session,
     isProcessing st = false → currentSession st = Some session →
     (sendTask_begin now task st).2 =
       [RunTaskWithSSE (Session.id session) task (selectedAgentType st)] ∧
     messages (sendTask_begin now task st).1 =
       messages st ++ [userMessage now task; assistantMessage now] ∧
     isProcessing (sendTask_begin now task st).1 = true ∧
     takeover (sendTask_begin now task st).1 = takeover st).
Proof.
  unfold rejected, sendTask_begin. split.
  - intros [-> | Hnone]; [done|]. rewrite Hnone. by destruct (isProcessing st).
  - intros session -> ->. done.
Qed.

(** C6 as the specification words it fails on the store that a takeover
    frame followed by a completed frame leaves: the takeover is active, and
    [sendTask] appends its two messages and opens the stream. *)
Lemma sendTask_accepted_during_takeover :
  TakeoverState.isActive (takeover takeoverIdleState) = true ∧
  ¬ rejected (sendTask_begin 2000 "next" takeoverIdleState) takeoverIdleState ∧
  (sendTask_begin 2000 "next" takeoverIdleState).2 =
    [RunTaskWithSSE "s1" "next" glm] ∧
  length (messages (sendTask_begin 2000 "next" takeoverIdleState).1) =
    length (messages takeoverIdleState) + 2 ∧
  isProcessing (sendTask_begin 2000 "next" takeoverIdleState).1 = true.
Proof.
  split_and!; try reflexivity.
  unfold rejected. intros Heq.
  apply (f_equal snd) in Heq. vm_compute in Heq. discriminate.
Qed.

(** Whatever the store is when the stop request settles, and whether it
    resolved or not, the continuation leaves the store idle and the last
    message closed. *)
Lemma stopTask_end_closes (ok : bool) (controller : option AbortController)
    (st : SessionState) :
  isProcessing (stopTask_end ok controller st).1 = false ∧
  sseController (stopTask_end ok controller st).1 = None ∧
  ∀ ms m, messages st = ms ++ [m] →
    messages (stopTask_end ok controller st).1 =
      ms ++ [closed (if ok then TASK_STOPPED else TASK_CANCELLED) m].
Proof.
  unfold stopTask_end.
  destruct ok; simpl; (split; [done|]; split; [done|]);
    intros ms m Hms; by rewrite (updateLastMessage_snoc _ _ ms m).
Qed.

(** C7. When a task is processing on a selected session, [stopTask] ends
    with [isProcessing] false, no controller in the store, and the last
    message no longer streaming, its content the stopped text when the
    request resolved and the cancelled text when it was rejected.
    [completeTakeover] ends with the takeover inactive whether its request
    resolved or not, and with or without a session. *)
Theorem side_channel_failure_does_not_block (ok : bool) (st : SessionState)
    (session : Session.t) :
  isProcessing st = true →
  currentSession st = Some session →
  isProcessing (stopTask ok st).1 = false ∧
  sseController (stopTask ok st).1 = None ∧
  (∀ ms m, messages st = ms ++ [m] →
     messages (stopTask ok st).1 =
       ms ++ [closed (if ok then TASK_STOPPED else TASK_CANCELLED) m] ∧
     Message.isStreaming (closed (if ok then TASK_STOPPED else TASK_CANCELLED) m)
       = Some false) ∧
  (∀ (ok' : bool) (st' : SessionState),
     TakeoverState.isActive (takeover (completeTakeover ok' st').1) = false).
Proof.
  intros Hproc Hsession.
  assert ((stopTask ok st).1 = (stopTask_end ok (sseController st) st).1) as ->.
  { unfold stopTask, stopTask_begin. rewrite Hproc, Hsession. simpl.
    by destruct (stopTask_end ok (sseController st) st). }
  destruct (stopTask_end_closes ok (sseController st) st) as (Hp & Hc & Hm).
  split_and!; try done.
  intros ms m Hms. split; [by apply Hm|done].
Qed.

Lemma side_channel_failure_does_not_block_witness :
  isProcessing runningState = true ∧
  currentSession runningState = Some sampleSession ∧
  isProcessing (stopTask false runningState).1 = false ∧
  sseController (stopTask false runningState).1 = None.
Proof.
  split; [reflexivity|]. split; [reflexivity|].
  destruct (side_channel_failure_does_not_block false runningState sampleSession
              eq_refl eq_refl) as (Hp & Hc & _).
  by split.
Defined.

Lemma currentSteps_closed (st st' : SessionState) (ms : list Message.t)
    (m : Message.t) (content : string) :
  messages st = ms ++ [m] →
  messages st' = ms ++ [closed content m] →
  currentSteps st' = currentSteps st.
Proof.
  intros Hms Hms'. unfold currentSteps. by rewrite Hms, Hms', !last_snoc.
Qed.

Lemma onCompleted_messages (data : EventData.t) (st : SessionState)
    (ms : list Message.t) (m : Message.t) :
  messages st = ms ++ [m] →
  messages (onCompleted data st) =
    ms ++ [closed (js_or (EventData.message data) TASK_COMPLETED) m].
Proof.
  intros Hms. unfold onCompleted. simpl.
  by rewrite (updateLastMessage_snoc _ _ ms m).
Qed.

Lemma onStopped_messages (data : EventData.t) (st : SessionState)
    (ms : list Message.t) (m : Message.t) :
  messages st = ms ++ [m] →
  messages (onStopped data st) =
    ms ++ [closed (js_or (EventData.message data) TASK_STOPPED) m].
Proof.
  intros Hms. unfold onStopped. simpl.
  by rewrite (updateLastMessage_snoc _ _ ms m).
Qed.

Lemma onError_messages (data : EventData.t) (st : SessionState)
    (ms : list Message.t) (m : Message.t) :
  messages st = ms ++ [m] →
  Message.isStreaming m = Some true →
  messages (onError data st) =
    ms ++ [closed (ERROR_PREFIX +:+ template (EventData.message data)) m].
Proof.
  intros Hms Hstreaming. unfold onError.
  assert (lastIsStreaming st = true) as ->.
  { unfold lastIsStreaming. by rewrite Hms, last_snoc, Hstreaming. }
  simpl. by rewrite (updateLastMessage_snoc _ _ ms m).
Qed.

(** C8, as the handlers set the content.  On a store whose last message is
    [m], a completed or stopped frame replaces that message by [m] with the
    frame's message as content, or the handler's default text when the
    frame's message is missing or empty, and with [isStreaming] false; it
    sets [isProcessing] false and clears the controller; the steps of the
    message stay as they are, an open last step included.  An error frame
    does the same when [m] is streaming, with the error prefix followed by
    the frame's message as content. *)
Theorem terminal_frame_closes_message (data : EventData.t) (st : SessionState)
    (ms : list Message.t) (m : Message.t) :
  messages st = ms ++ [m] →
  (messages (onCompleted data st) =
     ms ++ [closed
              match EventData.message data with
              | Some x => if String.eqb x "" then TASK_COMPLETED else x
              | None => TASK_COMPLETED
              end m] ∧
   isProcessing (onCompleted data st) = false ∧
   sseController (onCompleted data st) = None ∧
   currentSteps (onCompleted data st) = currentSteps st)
  ∧
  (messages (onStopped data st) =
     ms ++ [closed
              match EventData.message data with
              | Some x => if String.eqb x "" then TASK_STOPPED else x
              | None => TASK_STOPPED
              end m] ∧
   isProcessing (onStopped data st) = false ∧
   sseController (onStopped data st) = None ∧
   currentSteps (onStopped data st) = currentSteps st)
  ∧
  (Message.isStreaming m = Some true →
   messages (onError data st) =
     ms ++ [closed (ERROR_PREFIX +:+ default "undefined" (EventData.message data)) m] ∧
   isProcessing (onError data st) = false ∧
   sseController (onError data st) = None ∧
   currentSteps (onError data st) = currentSteps st).
Proof.
  intros Hms. split_and!; try done.
  - by apply onCompleted_messages.
  - by eapply currentSteps_closed, onCompleted_messages.
  - by apply onStopped_messages.
  - by eapply currentSteps_closed, onStopped_messages.
  - intros Hstreaming. split_and!; try done.
    + by apply onError_messages.
    + by eapply currentSteps_closed, onError_messages.
Qed.

(** Scenario B up to its last frame: the second step is open when the
    stopped frame arrives, and stays open. *)
Lemma terminal_frame_closes_message_witness :
  let st := onThinking 5 (thinkingData "p2")
              (onAction tapData (onThinking 4 (thinkingData "p1") runningState)) in
  let st' := onStopped (messageData "cancelled") st in
  (∃ ms m, messages st = ms ++ [m]) ∧
  AgentStep.status <$> currentSteps st' = ["completed"; "thinking"] ∧
  Message.content <$> last (messages st') = Some "cancelled" ∧
  isProcessing st' = false.
Proof.
  intros st st'.
  assert (∃ ms m, messages st = ms ++ [m]) as Hlast.
  { exists (take 1 (messages st)),
      (default (assistantMessage 0) (last (messages st))).
    by vm_compute. }
  split; [exact Hlast|].
  destruct Hlast as (ms & m & Hms).
  destruct (terminal_frame_closes_message (messageData "cancelled") st ms m Hms)
    as (_ & (Hmsgs & Hproc & _ & Hsteps) & _).
  subst st'. rewrite Hsteps, Hmsgs, last_snoc, Hproc.
  by split_and!.
Defined.

(** C8 as the specification words it fails on a completed frame whose
    message is the empty text: the content becomes the default text, not
    the frame's message. *)
Lemma completed_frame_with_empty_message :
  EventData.message (messageData "") = Some "" ∧
  Message.content <$> last (messages (onCompleted (messageData "") runningState))
    = Some TASK_COMPLETED ∧
  Message.content <$> last (messages (onCompleted (messageData "") runningState))
    ≠ Some (specFinalContent (messageData "") TASK_COMPLETED).
Proof. split_and!; [reflexivity|reflexivity|]. vm_compute. discriminate. Qed.

Lemma historyMessages_throws (conversations : list ConversationRecord.t)
    (e : string) :
  historyMessages conversations = Throws e ↔
  Exists nullStep conversations ∧ e = "TypeError".
Proof.
  unfold historyMessages.
  pose proof (mapFrom_spec (λ _, toMessage) conversations 0) as Hmap.
  assert (∀ conv e', toMessage conv = Throws e' ↔
                     nullStep conv ∧ e' = "TypeError") as Hrow.
  { intros conv e'. rewrite <- historySteps_throws. unfold toMessage.
    destruct (historySteps conv); split; (done || by intros [= ->]). }
  split.
  - intros Hthrows. rewrite Hthrows in Hmap.
    destruct Hmap as (i & conv & Hi & Hconv).
    apply Hrow in Hconv as [Hnull ->]. split; [|done].
    apply Exists_exists. exists conv.
    split; [by apply list_elem_of_lookup_2 in Hi|done].
  - intros [Hnull ->]. apply Exists_exists in Hnull as (conv & Hin & Hnull).
    apply list_elem_of_lookup_1 in Hin as [i Hi].
    destruct (mapFrom (λ _, toMessage) 0 conversations) as [out|e'].
    + destruct Hmap as [_ Hmap]. destruct (Hmap i conv Hi) as (y & _ & Hy).
      assert (toMessage conv = Throws "TypeError") as Hthrows by by apply Hrow.
      congruence.
    + destruct Hmap as (j & x & _ & Hx). by apply Hrow in Hx as [_ ->].
Qed.

(** A response with [null] in a steps array sends the [try] block to its
    [catch]. *)
Lemma loadHistory_null (conversations : list ConversationRecord.t) :
  Exists nullStep conversations →
  loadHistory (Some conversations) = Some None.
Proof.
  intros Hnull. unfold loadHistory.
  assert (historyMessages conversations = Throws "TypeError") as ->
    by by apply historyMessages_throws.
  done.
Qed.

(** C10. [selectSession] writes the current session, the messages, the
    screenshot, [isProcessing], the agent type and the controller, in both
    of its steps and however the loading of the history goes: the messages
    are the loaded ones when the [try] block comes to store them, and stay
    empty when it throws, as it does on a response with [null] in a steps
    array; the session list, [isCreatingSession] and the takeover state are
    as before, so a takeover that was active stays active.
    [createSession], when its request resolves, resets the takeover state to
    inactive. *)
Theorem selectSession_keeps_takeover (session : Session.t)
    (r : option (list Message.t)) (st : SessionState) :
  takeover (selectSession session r st).1 = takeover st ∧
  sessions (selectSession session r st).1 = sessions st ∧
  isCreatingSession (selectSession session r st).1 = isCreatingSession st ∧
  currentSession (selectSession session r st).1 = Some session ∧
  messages (selectSession session r st).1 =
    match r with
    | Some loaded => loaded
    | None => []
    end ∧
  screenshot (selectSession session r st).1 = None ∧
  isProcessing (selectSession session r st).1 = false ∧
  selectedAgentType (selectSession session r st).1 =
    default glm (Session.agent_type session) ∧
  sseController (selectSession session r st).1 = None ∧
  (TakeoverState.isActive (takeover st) = true →
   TakeoverState.isActive (takeover (selectSession session r st).1) = true) ∧
  (∀ conversations, Exists nullStep conversations →
     loadHistory (Some conversations) = Some None) ∧
  (∀ name created,
     takeover (createSession name (Some created) st).1 =
       TakeoverState.mk false None).
Proof.
  unfold selectSession, selectSession_begin, selectSession_end.
  destruct r as [loaded|]; simpl; split_and!; try done;
    try (by destruct (Session.agent_type session));
    apply loadHistory_null.
Qed.

(** ** The scenarios of the specification, run through the loop *)

(** Scenario A: thinking, action, completed. *)
Example scenario_A :
  let st :=
    (processChunk sampleParse 7 ("", runningState)
       (wire [sampleFrame "thinking" "plan A"; sampleFrame "action" "tap";
              sampleFrame "completed" "done"])).2 in
  AgentStep.status <$> currentSteps st = ["completed"] ∧
  AgentStep.action <$> currentSteps st = [Some [("action", JStr "tap")]] ∧
  Message.content <$> last (messages st) = Some "done" ∧
  Message.isStreaming <$> last (messages st) = Some (Some false) ∧
  isProcessing st = false.
Proof. by vm_compute. Qed.

(** Scenario B: two thinking frames for the first step, an action, a
    thinking frame that opens the second step, then stopped. *)
Example scenario_B :
  let st :=
    (processChunk sampleParse 7 ("", runningState)
       (wire [sampleFrame "thinking" "p1"; sampleFrame "thinking" "p1 continued";
              sampleFrame "action" "tap"; sampleFrame "thinking" "p2";
              sampleFrame "stopped" "cancelled"])).2 in
  AgentStep.status <$> currentSteps st = ["completed"; "thinking"] ∧
  AgentStep.thinking <$> currentSteps st = [Some "p1 continued"; Some "p2"] ∧
  AgentStep.stepNumber <$> currentSteps st = [of_nat 1; of_nat 2] ∧
  Message.content <$> last (messages st) = Some "cancelled".
Proof. by vm_compute. Qed.

(** Scenario C: a takeover frame sets the takeover active with its message;
    [sendTask] is rejected then, the task being still in progress; and
    acknowledging the takeover clears the flag when the request is
    rejected. *)
Example scenario_C :
  let st := onTakeover (messageData "please login") runningState in
  takeover st = TakeoverState.mk true (Some "please login") ∧
  rejected (sendTask_begin 2000 "next" st) st ∧
  TakeoverState.isActive (takeover (completeTakeover false st).1) = false.
Proof. by vm_compute. Qed.

(** ** The rest of the store: messages and sessions *)

Lemma set_messages_same (st : SessionState) : set_messages (messages st) st = st.
Proof. by destruct st. Qed.

(** X1. [updateLastMessage] keeps the number of messages and every message
    but the last, writes no other field of the store, and returns the store
    it was given when there is no message. *)
Theorem updateLastMessage_touches_only_last (u : Updates.t) (st : SessionState) :
  length (messages (updateLastMessage u st)) = length (messages st) ∧
  (∀ i, i + 1 < length (messages st) →
        messages (updateLastMessage u st) !! i = messages st !! i) ∧
  (messages st = [] → updateLastMessage u st = st) ∧
  set_messages (messages st) (updateLastMessage u st) = st.
Proof.
  unfold updateLastMessage.
  destruct (last (messages st)) as [m|] eqn:Hlast; simpl.
  - split_and!.
    + by rewrite length_insert.
    + intros i Hi. rewrite list_lookup_insert_ne by lia. done.
    + intros Hnil. by rewrite Hnil in Hlast.
    + by destruct st.
  - split_and!; try done; intros; by destruct st.
Qed.

(** X2. [closeSession] removes from the list exactly the sessions with the
    given id and keeps the others in their order; it never writes
    [isProcessing], the takeover, the agent type or [isCreatingSession];
    when the closed session is not the current one it writes nothing else
    and aborts nothing; and when the request fails it leaves the store as it
    was. *)
Theorem closeSession_removes_session (sessionId : string) (st : SessionState) :
  closeSession false sessionId st = (st, []) ∧
  sessions (closeSession true sessionId st).1 =
    filter (λ s, Session.id s ≠ sessionId) (sessions st) ∧
  (∀ s, s ∈ sessions (closeSession true sessionId st).1 ↔
        s ∈ sessions st ∧ Session.id s ≠ sessionId) ∧
  isProcessing (closeSession true sessionId st).1 = isProcessing st ∧
  takeover (closeSession true sessionId st).1 = takeover st ∧
  selectedAgentType (closeSession true sessionId st).1 = selectedAgentType st ∧
  isCreatingSession (closeSession true sessionId st).1 = isCreatingSession st ∧
  ((∀ session, currentSession st = Some session →
               Session.id session ≠ sessionId) →
   currentSession (closeSession true sessionId st).1 = currentSession st ∧
   messages (closeSession true sessionId st).1 = messages st ∧
   screenshot (closeSession true sessionId st).1 = screenshot st ∧
   sseController (closeSession true sessionId st).1 = sseController st ∧
   (closeSession true sessionId st).2 = []).
Proof.
  assert (sessions (closeSession true sessionId st).1 =
          filter (λ s, Session.id s ≠ sessionId) (sessions st)) as Hsessions.
  { unfold closeSession. simpl. by destruct (match currentSession st with
      | Some session => String.eqb (Session.id session) sessionId
      | None => false end). }
  split_and!; try done.
  - intros s. rewrite Hsessions, list_elem_of_filter. tauto.
  - unfold closeSession. simpl. by destruct (match currentSession st with
      | Some session => String.eqb (Session.id session) sessionId
      | None => false end).
  - unfold closeSession. simpl. by destruct (match currentSession st with
      | Some session => String.eqb (Session.id session) sessionId
      | None => false end).
  - unfold closeSession. simpl. by destruct (match currentSession st with
      | Some session => String.eqb (Session.id session) sessionId
      | None => false end).
  - unfold closeSession. simpl. by destruct (match currentSession st with
      | Some session => String.eqb (Session.id session) sessionId
      | None => false end).
  - intros Hother. unfold closeSession. simpl.
    destruct (currentSession st) as [session|] eqn:Hcurrent; [|done].
    destruct (String.eqb_spec (Session.id session) sessionId) as [Heq|Hne].
    + by destruct (Hother session).
    + by rewrite Hcurrent.
Qed.

(** X3. Closing the current session while its task is processing clears
    the session, the messages, the screenshot and the controller (which it
    aborts) but leaves [isProcessing] set.  On the store it leaves,
    [stopTask] and [sendTask] return at their guards without writing or
    requesting anything; selecting a session resets [isProcessing]. *)
Theorem closing_running_session_leaves_store_busy (st : SessionState)
    (session : Session.t) :
  currentSession st = Some session →
  isProcessing st = true →
  let closed := closeSession true (Session.id session) st in
  currentSession closed.1 = None ∧
  messages closed.1 = [] ∧
  screenshot closed.1 = None ∧
  sseController closed.1 = None ∧
  closed.2 = abortIfAny (sseController st) ∧
  isProcessing closed.1 = true ∧
  (∀ ok, stopTask ok closed.1 = (closed.1, [])) ∧
  (∀ now task r, sendTask now task r closed.1 = (closed.1, [])) ∧
  (∀ other r, isProcessing (selectSession other r closed.1).1 = false).
Proof.
  intros Hcurrent Hproc closed. subst closed.
  unfold closeSession. rewrite Hcurrent, String.eqb_refl. simpl.
  split_and!; try done.
  - intros ok. unfold stopTask, stopTask_begin. simpl. by rewrite Hproc.
  - intros now task r. unfold sendTask. simpl. by rewrite Hproc.
  - intros other r. by destruct r.
Qed.

Lemma closing_running_session_leaves_store_busy_witness :
  currentSession runningState = Some sampleSession ∧
  isProcessing runningState = true ∧
  isProcessing (closeSession true "s1" runningState).1 = true ∧
  stopTask true (closeSession true "s1" runningState).1 =
    ((closeSession true "s1" runningState).1, []).
Proof.
  split; [reflexivity|]. split; [reflexivity|].
  pose proof (closing_running_session_leaves_store_busy runningState
                sampleSession eq_refl eq_refl) as H.
  cbv zeta in H. destruct H as (_ & _ & _ & _ & _ & Hproc & Hstop & _).
  split; [exact Hproc|apply Hstop].
Defined.

(** X4. When [runTaskWithSSE] throws, [sendTask] on an idle store with a
    session ends with the user message kept, the placeholder closed with the
    send-failure text and no longer streaming, [isProcessing] false and the
    controller as it was. *)
Theorem sendTask_failure_closes_placeholder (now : Z) (task : string)
    (st : SessionState) (session : Session.t) :
  isProcessing st = false →
  currentSession st = Some session →
  messages (sendTask now task None st).1 =
    messages st ++ [userMessage now task; closed SEND_FAILED (assistantMessage now)] ∧
  isProcessing (sendTask now task None st).1 = false ∧
  sseController (sendTask now task None st).1 = sseController st ∧
  lastIsStreaming (sendTask now task None st).1 = false ∧
  (sendTask now task None st).2 =
    [RunTaskWithSSE (Session.id session) task (selectedAgentType st)].
Proof.
  intros Hidle Hcurrent.
  assert (messages (sendTask now task None st).1 =
          messages st ++ [userMessage now task;
                          closed SEND_FAILED (assistantMessage now)]) as Hms.
  { unfold sendTask, sendTask_begin. rewrite Hidle, Hcurrent. simpl.
    rewrite (updateLastMessage_snoc _ _ (messages st ++ [userMessage now task])
               (assistantMessage now)); [by rewrite <- app_assoc|].
    simpl. by rewrite <- app_assoc. }
  split_and!.
  - done.
  - unfold sendTask, sendTask_begin. rewrite Hidle, Hcurrent. simpl.
    unfold updateLastMessage. by destruct (last _).
  - unfold sendTask, sendTask_begin. rewrite Hidle, Hcurrent. simpl.
    unfold updateLastMessage. by destruct (last _).
  - unfold lastIsStreaming. rewrite Hms.
    change [userMessage now task; closed SEND_FAILED (assistantMessage now)]
      with ([userMessage now task] ++ [closed SEND_FAILED (assistantMessage now)]).
    by rewrite app_assoc, last_snoc.
  - unfold sendTask, sendTask_begin. by rewrite Hidle, Hcurrent.
Qed.

Lemma sendTask_failure_closes_placeholder_witness :
  isProcessing takeoverIdleState = false ∧
  currentSession takeoverIdleState = Some sampleSession ∧
  isProcessing (sendTask 9 "next" None takeoverIdleState).1 = false ∧
  lastIsStreaming (sendTask 9 "next" None takeoverIdleState).1 = false.
Proof.
  split; [reflexivity|]. split; [reflexivity|].
  destruct (sendTask_failure_closes_placeholder 9 "next" takeoverIdleState
              sampleSession eq_refl eq_refl) as (_ & Hproc & _ & Hlast & _).
  by split.
Defined.

(** X5. When [runTaskWithSSE] resolves, [sendTask] on an idle store with a
    session leaves the controller in the store, [isProcessing] set, and a
    streaming last message without steps; whatever thinking and action
    frames the handlers then apply, the steps of that message are numbered
    from 1 without gap and only the last may be open. *)
Theorem sendTask_opens_message_for_frames (now : Z) (task : string)
    (controller : AbortController) (st : SessionState) (session : Session.t)
    (frames : list StepFrame) :
  isProcessing st = false →
  currentSession st = Some session →
  let sent := (sendTask now task (Some controller) st).1 in
  messages sent = messages st ++ [userMessage now task; assistantMessage now] ∧
  isProcessing sent = true ∧
  sseController sent = Some controller ∧
  lastIsStreaming sent = true ∧
  currentSteps sent = [] ∧
  contiguous (currentSteps (foldl applyFrame sent frames)) ∧
  onlyLastOpen (currentSteps (foldl applyFrame sent frames)).
Proof.
  intros Hidle Hcurrent sent.
  assert (messages sent =
          messages st ++ [userMessage now task; assistantMessage now]) as Hms.
  { subst sent. unfold sendTask, sendTask_begin. by rewrite Hidle, Hcurrent. }
  assert (last (messages sent) = Some (assistantMessage now)) as Hlast.
  { rewrite Hms.
    change [userMessage now task; assistantMessage now]
      with ([userMessage now task] ++ [assistantMessage now]).
    by rewrite app_assoc, last_snoc. }
  assert (currentSteps sent = []) as Hsteps.
  { unfold currentSteps. by rewrite Hlast. }
  assert (messages sent ≠ []) as Hne.
  { rewrite Hms. by destruct (messages st). }
  split_and!; try done.
  - subst sent. unfold sendTask, sendTask_begin. by rewrite Hidle, Hcurrent.
  - subst sent. unfold sendTask, sendTask_begin. by rewrite Hidle, Hcurrent.
  - unfold lastIsStreaming. by rewrite Hlast.
  - rewrite foldl_applyFrame_currentSteps, Hsteps by done.
    apply foldl_reduce_invariant. split; by intros i s.
  - rewrite foldl_applyFrame_currentSteps, Hsteps by done.
    apply foldl_reduce_invariant. split; by intros i s.
Qed.

Lemma sendTask_opens_message_for_frames_witness :
  isProcessing takeoverIdleState = false ∧
  currentSession takeoverIdleState = Some sampleSession ∧
  contiguous
    (currentSteps
       (foldl applyFrame (sendTask 9 "next" (Some 2) takeoverIdleState).1
          [ThinkingFrame 10 (thinkingData "p1"); ActionFrame tapData;
           ThinkingFrame 11 (thinkingData "p2")])).
Proof.
  split; [reflexivity|]. split; [reflexivity|].
  pose proof (sendTask_opens_message_for_frames 9 "next" 2 takeoverIdleState
    sampleSession
    [ThinkingFrame 10 (thinkingData "p1"); ActionFrame tapData;
     ThinkingFrame 11 (thinkingData "p2")] eq_refl eq_refl) as H.
  cbv zeta in H. by destruct H as (_ & _ & _ & _ & _ & H & _).
Defined.

(** X6. [createSession] ends with [isCreatingSession] false whether its
    request resolves or not.  When the request fails on a store with a task
    processing, the controller has been aborted, yet the store still holds
    it and still has [isProcessing] set, with session, messages, screenshot
    and takeover as before; the abort that the stream then reports leaves
    that store as it is. *)
Theorem createSession_failure_keeps_task_state (ToString : JSON → string)
    (name : option string) (st : SessionState) (controller : AbortController) :
  sseController st = Some controller →
  (∀ r, isCreatingSession (createSession name r st).1 = false) ∧
  (createSession name None st).1 = set_isCreatingSession false st ∧
  Abort controller ∈ (createSession name None st).2 ∧
  sseController (createSession name None st).1 = Some controller ∧
  isProcessing (createSession name None st).1 = isProcessing st ∧
  onStreamFailure ToString (ReadRejected "AbortError")
    (createSession name None st).1 = (createSession name None st).1.
Proof.
  intros Hctl. split_and!.
  - by intros [s|].
  - done.
  - unfold createSession, createSession_begin. simpl. rewrite Hctl.
    apply list_elem_of_here.
  - done.
  - done.
  - done.
Qed.

Lemma createSession_failure_keeps_task_state_witness :
  sseController runningState = Some 1 ∧
  isProcessing (createSession None None runningState).1 = true ∧
  sseController (createSession None None runningState).1 = Some 1.
Proof.
  split; [reflexivity|].
  destruct (createSession_failure_keeps_task_state (λ _, "") None runningState 1
              eq_refl) as (_ & _ & _ & Hctl & Hproc & _).
  rewrite Hproc, Hctl. by split.
Defined.

(** X7. When its request resolves, [createSession] puts the new session
    first in the list, before the sessions it had in their order, makes it
    the current one on an empty, idle store, and keeps the selected agent
    type: the task that [sendTask] then starts is requested with the agent
    type that the session was created with. *)
Theorem createSession_then_sendTask_same_agent (name : option string)
    (session : Session.t) (now : Z) (task : string)
    (r : option AbortController) (st : SessionState) :
  let created := createSession name (Some session) st in
  sessions created.1 = session :: sessions st ∧
  currentSession created.1 = Some session ∧
  messages created.1 = [] ∧
  screenshot created.1 = None ∧
  isProcessing created.1 = false ∧
  sseController created.1 = None ∧
  selectedAgentType created.1 = selectedAgentType st ∧
  ApiCreateSession name (selectedAgentType st) ∈ created.2 ∧
  (sendTask now task r created.1).2 =
    [RunTaskWithSSE (Session.id session) task (selectedAgentType st)].
Proof.
  simpl. split_and!; try done.
  apply elem_of_app. right. apply list_elem_of_here.
Qed.

(** X8. After [selectSession] the store's agent type is the session's, or
    glm when the session has none, whatever was selected before, and the
    task that [sendTask] then starts is requested with it. *)
Theorem selectSession_then_sendTask_session_agent (session : Session.t)
    (history : option (list Message.t)) (now : Z) (task : string)
    (r : option AbortController) (st : SessionState) :
  (sendTask now task r (selectSession session history st).1).2 =
    [RunTaskWithSSE (Session.id session) task
       match Session.agent_type session with
       | Some agentType => agentType
       | None => glm
       end].
Proof.
  unfold selectSession, selectSession_begin, selectSession_end, sendTask,
    sendTask_begin.
  destruct history as [conversations|]; simpl;
    by destruct (Session.agent_type session).
Qed.

(** X9. Switching or creating a session aborts the controller that the
    store holds before it makes its request, and aborts nothing when the
    store holds none; [selectSession] also drops the controller from the
    store at once. *)
Theorem session_change_aborts_stream_first (st : SessionState) :
  (∀ session r,
     (selectSession session r st).2 =
       abortIfAny (sseController st) ++ [ApiGetConversations (Session.id session)] ∧
     sseController (selectSession session r st).1 = None) ∧
  (∀ name r,
     (createSession name r st).2 =
       abortIfAny (sseController st) ++ [ApiCreateSession name (selectedAgentType st)]) ∧
  (∀ controller, sseController st = Some controller →
     ∀ session r name r',
       head (selectSession session r st).2 = Some (Abort controller) ∧
       head (createSession name r' st).2 = Some (Abort controller)).
Proof.
  split_and!.
  - intros session r. split; [done|]. by destruct r.
  - done.
  - intros controller Hctl session r name r'.
    unfold selectSession, createSession, selectSession_begin, createSession_begin.
    simpl. by rewrite Hctl.
Qed.

(** X10. [stopTask] returns without writing or requesting anything when
    no task is processing or no session is selected.  Otherwise it requests
    the stop; it aborts the stored controller when the request resolves, and
    when the request is rejected it drops the controller from the store
    without aborting it. *)
Theorem stopTask_aborts_only_on_success (st : SessionState) :
  (isProcessing st = false ∨ currentSession st = None →
   ∀ ok, stopTask ok st = (st, [])) ∧
  (∀ session, isProcessing st = true → currentSession st = Some session →
     (stopTask true st).2 =
       ApiStopTask (Session.id session) :: abortIfAny (sseController st) ∧
     (stopTask false st).2 = [ApiStopTask (Session.id session)] ∧
     sseController (stopTask false st).1 = None ∧
     ∀ controller, Abort controller ∉ (stopTask false st).2).
Proof.
  split.
  - intros Hguard ok. unfold stopTask, stopTask_begin.
    destruct Hguard as [-> | ->]; [done|]. by destruct (isProcessing st).
  - intros session Hproc Hcurrent. unfold stopTask, stopTask_begin.
    rewrite Hproc, Hcurrent. simpl. split_and!; try done.
    intros controller Hin. apply list_elem_of_singleton in Hin. discriminate.
Qed.

(** X11. The stop button of the takeover dialog calls [stopTask] and then
    [completeTakeover] without awaiting either.  On a store with a task
    processing on a session, both requests are made, the stop first, and the
    store ends the same in whichever order they settle and whatever their
    outcomes: idle, without controller, with the takeover inactive. *)
Theorem handleStop_order_does_not_matter (okStop okTakeover : bool)
    (st : SessionState) (session : Session.t) :
  isProcessing st = true →
  currentSession st = Some session →
  handleStop true okStop okTakeover st = handleStop false okStop okTakeover st ∧
  isProcessing (handleStop true okStop okTakeover st).1 = false ∧
  sseController (handleStop true okStop okTakeover st).1 = None ∧
  TakeoverState.isActive (takeover (handleStop true okStop okTakeover st).1) = false ∧
  take 2 (handleStop true okStop okTakeover st).2 =
    [ApiStopTask (Session.id session); ApiCompleteTakeover (Session.id session)].
Proof.
  intros Hproc Hcurrent. unfold handleStop, stopTask_begin, stopTask_end,
    completeTakeover_begin, completeTakeover_end.
  rewrite Hproc, Hcurrent. simpl.
  destruct okStop; simpl; split_and!; try done;
    unfold updateLastMessage; simpl; by destruct (last (messages st)).
Qed.

Lemma handleStop_order_does_not_matter_witness :
  isProcessing runningState = true ∧
  currentSession runningState = Some sampleSession ∧
  handleStop true false false runningState =
    handleStop false false false runningState.
Proof.
  split; [reflexivity|]. split; [reflexivity|].
  by destruct (handleStop_order_does_not_matter false false runningState
                 sampleSession eq_refl eq_refl) as (H & _).
Defined.

(** ** Failures and frames that end or do not concern the task *)

Lemma lastIsStreaming_closed (st : SessionState) (u : string) :
  lastIsStreaming (updateLastMessage (finalContent u) st) = false.
Proof.
  unfold lastIsStreaming, updateLastMessage.
  destruct (last (messages st)) as [m|] eqn:Hlast; simpl.
  - apply last_Some in Hlast as [ms ->]. by rewrite insert_last, last_snoc.
  - by rewrite Hlast.
Qed.

Lemma set_idle_idle (st : SessionState) :
  isProcessing st = false → sseController st = None → set_idle st = st.
Proof. destruct st. simpl. by intros -> ->. Qed.

Lemma onError_not_streaming (data : EventData.t) (st : SessionState) :
  lastIsStreaming st = false → onError data st = set_idle st.
Proof. unfold onError. by intros ->. Qed.

Lemma onConnectionError_not_streaming (st : SessionState) :
  lastIsStreaming st = false → onConnectionError st = set_idle st.
Proof. unfold onConnectionError. by intros ->. Qed.

(** X12. The stream of a task that ends otherwise than by its last chunk:
    an abort changes nothing in the store.  Every other failure, and so a
    response that is not ok whatever its body says, or a response without
    body, sets the store idle; it closes the last message with the
    connection-error text when that message is streaming, and leaves the
    messages as they are when it is not. *)
Theorem stream_failure_shows_connection_error (ToString : JSON → string)
    (st : SessionState) :
  onStreamFailure ToString (ReadRejected "AbortError") st = st ∧
  (∀ response, failureName ToString (NotOk response) ≠ "AbortError") ∧
  (∀ f, failureName ToString f ≠ "AbortError" →
     isProcessing (onStreamFailure ToString f st) = false ∧
     sseController (onStreamFailure ToString f st) = None ∧
     (lastIsStreaming st = false →
      messages (onStreamFailure ToString f st) = messages st) ∧
     (∀ ms m, messages st = ms ++ [m] → Message.isStreaming m = Some true →
        messages (onStreamFailure ToString f st) =
          ms ++ [closed CONNECTION_ERROR m])).
Proof.
  split_and!.
  - done.
  - intros response. unfold failureName, rejectNotOk.
    by destruct (default _ (Response.json response)).
  - intros f Hname. unfold onStreamFailure.
    destruct (String.eqb_spec (failureName ToString f) "AbortError"); [done|].
    split_and!; try done.
    + intros Hclosed. by rewrite onConnectionError_not_streaming.
    + intros ms m Hms Hstreaming. unfold onConnectionError.
      assert (lastIsStreaming st = true) as ->.
      { unfold lastIsStreaming. by rewrite Hms, last_snoc, Hstreaming. }
      simpl. by rewrite (updateLastMessage_snoc _ _ ms m).
Qed.

(** X13. Once a completed, stopped or error frame or a connection error
    has been handled, a later error frame or connection error changes
    nothing: it does not rewrite the closed message.  A completed frame that
    comes after a stopped frame does replace the content. *)
Theorem error_after_terminal_frame_changes_nothing (data data' : EventData.t)
    (st : SessionState) :
  onError data (onCompleted data' st) = onCompleted data' st ∧
  onError data (onStopped data' st) = onStopped data' st ∧
  onError data (onError data' st) = onError data' st ∧
  onError data (onConnectionError st) = onConnectionError st ∧
  onConnectionError (onCompleted data' st) = onCompleted data' st ∧
  onConnectionError (onStopped data' st) = onStopped data' st ∧
  onConnectionError (onError data' st) = onError data' st ∧
  (∀ ms m, messages st = ms ++ [m] →
     messages (onCompleted data (onStopped data' st)) =
       ms ++ [closed (js_or (EventData.message data) TASK_COMPLETED) m]).
Proof.
  assert (∀ st', lastIsStreaming st' = false →
            lastIsStreaming (set_idle st') = false) as Hidle by done.
  assert (lastIsStreaming (onCompleted data' st) = false) as Hc.
  { apply Hidle, lastIsStreaming_closed. }
  assert (lastIsStreaming (onStopped data' st) = false) as Hs.
  { apply Hidle, lastIsStreaming_closed. }
  assert (lastIsStreaming (onError data' st) = false) as He.
  { unfold onError. apply Hidle.
    destruct (lastIsStreaming st) eqn:Hl; [apply lastIsStreaming_closed|done]. }
  assert (lastIsStreaming (onConnectionError st) = false) as Hx.
  { unfold onConnectionError. apply Hidle.
    destruct (lastIsStreaming st) eqn:Hl; [apply lastIsStreaming_closed|done]. }
  split_and!.
  - by rewrite onError_not_streaming.
  - by rewrite onError_not_streaming.
  - by rewrite onError_not_streaming.
  - by rewrite onError_not_streaming.
  - by rewrite onConnectionError_not_streaming.
  - by rewrite onConnectionError_not_streaming.
  - by rewrite onConnectionError_not_streaming.
  - intros ms m Hms.
    by rewrite (onCompleted_messages data _ ms
                  (closed (js_or (EventData.message data') TASK_STOPPED) m))
      by (by apply onStopped_messages).
Qed.

(** X14. A frame whose kind is none of thinking, action, completed, error
    and stopped leaves the messages, and with them the steps, [isProcessing]
    and the controller as they are; a ready frame and a frame of a kind that
    the switch does not list leave the whole store as it is. *)
Theorem other_frames_keep_messages (now : Z) (eventType : string)
    (data : EventData.t) (st : SessionState) :
  eventType ∉ ["thinking"; "action"; "completed"; "error"; "stopped"] →
  messages (dispatch now eventType data st) = messages st ∧
  currentSteps (dispatch now eventType data st) = currentSteps st ∧
  isProcessing (dispatch now eventType data st) = isProcessing st ∧
  sseController (dispatch now eventType data st) = sseController st ∧
  (eventType ∉ ["screenshot"; "takeover"] →
   dispatch now eventType data st = st).
Proof.
  intros Hkind. unfold dispatch.
  repeat match goal with
  | |- context [String.eqb eventType ?k] =>
      destruct (String.eqb_spec eventType k) as [->|?]
  end; try done;
    try (solve [exfalso; apply Hkind; repeat constructor]).
  all: split_and!; try done; intros Hother; exfalso; apply Hother;
    repeat constructor.
Qed.

Lemma other_frames_keep_messages_witness :
  messages (dispatch 3 "heartbeat" noData runningState) = messages runningState ∧
  dispatch 3 "heartbeat" noData runningState = runningState.
Proof.
  assert ("heartbeat" ∉ ["thinking"; "action"; "completed"; "error"; "stopped"])
    as Hkind by (apply (bool_decide_unpack _); by vm_compute).
  destruct (other_frames_keep_messages 3 "heartbeat" noData runningState Hkind)
    as (Hm & _ & _ & _ & Hst).
  split; [exact Hm|]. apply Hst.
  apply (bool_decide_unpack _). by vm_compute.
Defined.

(** ** The lines of a frame, and chunks cut anywhere *)

Lemma split_NL_nonempty (s : string) : ∃ x r, split NL s = x :: r.
Proof.
  induction s as [|c s (x & r & IH)]; [by eexists _, _|].
  rewrite split_NL_cons, IH. destruct (Ascii.eqb "010" c); by eexists _, _.
Qed.

Lemma split_NL_app (s t : string) :
  split NL (s +:+ NL +:+ t) = split NL s ++ split NL t.
Proof.
  induction s as [|c s IH]; [done|].
  change (String c s +:+ NL +:+ t) with (String c (s +:+ NL +:+ t)).
  rewrite !split_NL_cons, IH.
  destruct (Ascii.eqb "010" c); [done|].
  by destruct (split_NL_nonempty s) as (x & r & ->).
Qed.

Lemma split_NL_line (s : string) : includes NL s = false → split NL s = [s].
Proof.
  induction s as [|c s IH]; [done|].
  change (includes NL (String c s))
    with (Ascii.eqb "010" c && true || includes NL s).
  rewrite andb_true_r. intros [Hc Hs]%orb_false_iff.
  by rewrite split_NL_cons, Hc, IH.
Qed.

Lemma startsWith_app (p s : string) : startsWith p (p +:+ s) = true.
Proof.
  induction p as [|c p IH]; [done|].
  change (Ascii.eqb c c && startsWith p (p +:+ s) = true).
  by rewrite Ascii.eqb_refl, IH.
Qed.

Lemma scanLine_event (acc : string * string) (kind : string) :
  scanLine acc ("event: " +:+ kind) = (kind, acc.2).
Proof.
  unfold scanLine. by rewrite startsWith_app.
Qed.

Lemma scanLine_data (acc : string * string) (data : string) :
  scanLine acc ("data: " +:+ data) = (acc.1, data).
Proof.
  unfold scanLine.
  change (startsWith "event: " ("data: " +:+ data)) with false.
  by rewrite startsWith_app.
Qed.

(** X15. A frame written as an event line and a data line, in either
    order, is read back as that kind and that data, when neither holds a
    newline. *)
Theorem parseLines_reads_frame (kind data : string) :
  includes NL kind = false →
  includes NL data = false →
  parseLines ("event: " +:+ kind +:+ NL +:+ "data: " +:+ data) = (kind, data) ∧
  parseLines ("data: " +:+ data +:+ NL +:+ "event: " +:+ kind) = (kind, data).
Proof.
  intros Hkind Hdata.
  assert (includes NL ("event: " +:+ kind) = false) as Hevent by done.
  assert (includes NL ("data: " +:+ data) = false) as Hline by done.
  unfold parseLines. split.
  - rewrite <- (append_assoc "event: " kind), split_NL_app.
    rewrite !split_NL_line by done. simpl.
    by rewrite scanLine_event, scanLine_data.
  - rewrite <- (append_assoc "data: " data), split_NL_app.
    rewrite !split_NL_line by done. simpl.
    by rewrite scanLine_data, scanLine_event.
Qed.

Lemma parseLines_reads_frame_witness :
  includes NL "thinking" = false ∧
  parseLines ("event: " +:+ "thinking" +:+ NL +:+ "data: " +:+ "{p1")
    = ("thinking", "{p1").
Proof.
  split; [reflexivity|].
  by destruct (parseLines_reads_frame "thinking" "{p1" eq_refl eq_refl).
Defined.

(** X16. The lines of a frame are not joined: a further data line replaces
    the data read so far and keeps the kind, and a further event line
    replaces the kind and keeps the data. *)
Theorem parseLines_last_line_wins (frame line : string) :
  includes NL line = false →
  parseLines (frame +:+ NL +:+ "data: " +:+ line) = ((parseLines frame).1, line) ∧
  parseLines (frame +:+ NL +:+ "event: " +:+ line) = (line, (parseLines frame).2).
Proof.
  intros Hline.
  assert (includes NL ("event: " +:+ line) = false) as He by done.
  assert (includes NL ("data: " +:+ line) = false) as Hd by done.
  unfold parseLines.
  rewrite !split_NL_app, !foldl_app.
  rewrite (split_NL_line ("data: " +:+ line)),
    (split_NL_line ("event: " +:+ line)) by done.
  simpl. by rewrite scanLine_event, scanLine_data.
Qed.

Lemma parseLines_last_line_wins_witness :
  includes NL "second" = false ∧
  parseLines (("event: thinking" +:+ NL +:+ "data: first")
              +:+ NL +:+ "data: " +:+ "second") = ("thinking", "second").
Proof.
  split; [reflexivity|].
  by destruct (parseLines_last_line_wins
                 ("event: thinking" +:+ NL +:+ "data: first") "second" eq_refl)
    as [-> _].
Defined.

Lemma split_uncut_whole (s : string) :
  includes NLNL s = false → split NLNL s = [s].
Proof.
  induction s as [|c|c d s IHs IHd] using string_ind2; intros Hs.
  - done.
  - apply split_one.
  - change (includes NLNL (String c (String d s)))
      with (Ascii.eqb "010" c && (Ascii.eqb "010" d && true)
            || includes NLNL (String d s)) in Hs.
    rewrite andb_true_r in Hs. apply orb_false_iff in Hs as [Hsep Hrest].
    by rewrite split_two, Hsep, IHd.
Qed.

Lemma feed_app_buffer (buffer c1 c2 : string) :
  feed buffer (c1 +:+ c2) =
  ((feed buffer c1).1 ++ (feed (feed buffer c1).2 c2).1,
   (feed (feed buffer c1).2 c2).2).
Proof.
  change (feed buffer (c1 +:+ c2)) with (feed "" (buffer +:+ c1 +:+ c2)).
  rewrite <- append_assoc. apply feed_app.
Qed.

Section Chunks.

Variable JSON_parse : string → option EventData.t.

Lemma processChunk_buffer (now : Z) (conn : string * SessionState)
    (chunk : string) :
  includes NLNL (processChunk JSON_parse now conn chunk).1 = false.
Proof.
  unfold processChunk.
  pose proof (feed_consumes_whole_frames conn.1 chunk) as (_ & _ & Hbuf).
  by destruct (feed conn.1 chunk).
Qed.

Lemma processChunk_empty (now : Z) (buffer : string) (st : SessionState) :
  includes NLNL buffer = false →
  processChunk JSON_parse now (buffer, st) "" = (buffer, st).
Proof.
  intros Hbuf. unfold processChunk, feed. cbn [fst snd].
  rewrite append_empty, split_uncut_whole by done.
  change (last [buffer]) with (Some buffer). by rewrite js_or_text.
Qed.

(** X17. A chunk of length zero changes neither the store nor the buffer,
    at the start of the stream and after any turn of the loop. *)
Theorem empty_chunk_changes_nothing (now : Z) (st : SessionState) :
  processChunk JSON_parse now ("", st) "" = ("", st) ∧
  (∀ conn chunk,
     processChunk JSON_parse now
       (processChunk JSON_parse now conn chunk) "" =
     processChunk JSON_parse now conn chunk) ∧
  (∀ buffer, includes NLNL buffer = false →
     processChunk JSON_parse now (buffer, st) "" = (buffer, st)).
Proof.
  split_and!.
  - by apply processChunk_empty.
  - intros conn chunk.
    pose proof (processChunk_buffer now conn chunk) as Hbuf.
    destruct (processChunk JSON_parse now conn chunk) as [buffer st'].
    by apply processChunk_empty.
  - intros buffer. apply processChunk_empty.
Qed.

Lemma processChunk_app (now : Z) (conn : string * SessionState)
    (c1 c2 : string) :
  processChunk JSON_parse now (processChunk JSON_parse now conn c1) c2 =
  processChunk JSON_parse now conn (c1 +:+ c2).
Proof.
  unfold processChunk. rewrite feed_app_buffer.
  destruct (feed conn.1 c1) as [e1 b1]. cbn [fst snd].
  destruct (feed b1 c2) as [e2 b2]. cbn [fst snd].
  by rewrite foldl_app.
Qed.

(** X18. However the text of a stream is cut into chunks, frames cut in
    two included, the loop ends with the same store and the same kept
    buffer as on the whole text in one chunk, the clock reading being the
    same. *)
Theorem chunking_does_not_change_the_store (now : Z) (st : SessionState)
    (chunks : list string) :
  foldl (processChunk JSON_parse now) ("", st) chunks =
  processChunk JSON_parse now ("", st) (foldr String.append "" chunks).
Proof.
  assert (∀ conn, includes NLNL conn.1 = false →
            foldl (processChunk JSON_parse now) conn chunks =
            processChunk JSON_parse now conn (foldr String.append "" chunks))
    as Hgen.
  { induction chunks as [|c chunks IH]; intros [buffer st'] Hbuf; simpl.
    - symmetry. by apply processChunk_empty.
    - rewrite IH by apply processChunk_buffer. apply processChunk_app. }
  by apply Hgen.
Qed.

End Chunks.

(** X19. A thinking frame that comes after the completed frame is still
    applied: it opens or rewrites a step of the message that the completed
    frame closed, which stays closed, on a store that stays idle. *)
Theorem thinking_after_completed_still_writes_steps (now : Z)
    (data data' : EventData.t) (st : SessionState) :
  messages st ≠ [] →
  let late := onThinking now data (onCompleted data' st) in
  currentSteps late = thinkingSteps now data (currentSteps st) ∧
  length (currentSteps late) ≥ length (currentSteps st) ∧
  currentSteps late ≠ [] ∧
  lastIsStreaming late = false ∧
  isProcessing late = false.
Proof.
  intros Hne late. subst late.
  destruct (last (messages st)) as [m|] eqn:Hlast;
    [|by apply last_None in Hlast].
  apply last_Some in Hlast as [ms Hms].
  pose proof (onCompleted_messages data' st ms m Hms) as Hcompleted.
  assert (currentSteps (onCompleted data' st) = currentSteps st) as Hsteps.
  { by eapply currentSteps_closed. }
  assert (currentSteps (onThinking now data (onCompleted data' st)) =
          thinkingSteps now data (currentSteps st)) as Hlate.
  { rewrite onThinking_currentSteps, Hsteps; [done|].
    rewrite Hcompleted. by destruct ms. }
  assert (length (thinkingSteps now data (currentSteps st)) ≥
          length (currentSteps st) ∧
          thinkingSteps now data (currentSteps st) ≠ []) as [Hlen Hnil].
  { unfold thinkingSteps.
    destruct (last (currentSteps st)) as [l|] eqn:Hl.
    - apply last_Some in Hl as [init Hinit]. rewrite Hinit.
      destruct (String.eqb _ _).
      + rewrite !length_app. simpl. split; [lia|]. by destruct init.
      + rewrite insert_last, !length_app. simpl. split; [lia|]. by destruct init.
    - rewrite length_app. simpl. split; [lia|].
      by destruct (currentSteps st). }
  split_and!.
  - done.
  - by rewrite Hlate.
  - by rewrite Hlate.
  - unfold onThinking, lastIsStreaming.
    rewrite (updateLastMessage_snoc _ _ ms
               (closed (js_or (EventData.message data') TASK_COMPLETED) m))
      by done.
    by rewrite last_snoc.
  - unfold onThinking, updateLastMessage. by destruct (last _).
Qed.

Lemma thinking_after_completed_still_writes_steps_witness :
  messages runningState ≠ [] ∧
  length (currentSteps
            (onThinking 8 (thinkingData "late")
               (onCompleted (messageData "done") runningState))) = 1.
Proof.
  assert (messages runningState ≠ []) as Hne by done.
  split; [exact Hne|].
  pose proof (thinking_after_completed_still_writes_steps 8
    (thinkingData "late") (messageData "done") runningState Hne) as H.
  cbv zeta in H. destruct H as (-> & _). reflexivity.
Defined.

(** ** More on the step reducer *)

Lemma reduce_step (steps : list AgentStep.t) (f : StepFrame) :
  (∃ s, reduce steps f = steps ++ [s] ∧
        ∃ now data, f = ThinkingFrame now data)
  ∨ reduce steps f = steps
  ∨ (∃ init l l', steps = init ++ [l] ∧ reduce steps f = init ++ [l'] ∧
       AgentStep.id l' = AgentStep.id l ∧
       AgentStep.stepNumber l' = AgentStep.stepNumber l ∧
       AgentStep.timestamp l' = AgentStep.timestamp l).
Proof.
  destruct f as [now data|data]; simpl.
  - unfold thinkingSteps. destruct (last steps) as [l|] eqn:Hlast.
    + apply last_Some in Hlast as [init ->].
      destruct (String.eqb _ _).
      * left. eexists. split; [done|]. by eexists _, _.
      * right. right. rewrite insert_last. by eexists _, _, _.
    + left. eexists. split; [done|]. by eexists _, _.
  - unfold actionSteps. destruct (last steps) as [l|] eqn:Hlast.
    + apply last_Some in Hlast as [init ->]. simpl.
      right. right. rewrite insert_last. by eexists _, _, _.
    + right. by left.
Qed.

(** X20. No frame removes a step, and no frame changes a step that is not
    the last one: whatever frames follow, the list is at least as long, a
    step before the last is the same step at the same place, and every step
    keeps its id, its number and its timestamp. *)
Theorem reducer_never_rewrites_earlier_steps (frames : list StepFrame)
    (steps : list AgentStep.t) :
  length steps ≤ length (foldl reduce steps frames) ∧
  (∀ i s, steps !! i = Some s → i + 1 < length steps →
          foldl reduce steps frames !! i = Some s) ∧
  (∀ i s, steps !! i = Some s →
     ∃ s', foldl reduce steps frames !! i = Some s' ∧
           AgentStep.id s' = AgentStep.id s ∧
           AgentStep.stepNumber s' = AgentStep.stepNumber s ∧
           AgentStep.timestamp s' = AgentStep.timestamp s).
Proof.
  revert steps. induction frames as [|f frames IH]; intros steps; simpl.
  { split_and!; [done|done|]. intros i s Hi. by exists s. }
  destruct (IH (reduce steps f)) as (Hlen & Hclosed & Hident).
  destruct (reduce_step steps f)
    as [(x & Heq & _)|[Heq|(init & l & l' & -> & Heq & Hid & Hnum & Hts)]];
    rewrite Heq in *.
  - rewrite length_app in Hlen. simpl in Hlen. split_and!.
    + lia.
    + intros i s Hi Hlt. apply Hclosed.
      * by apply lookup_app_l_Some.
      * rewrite length_app. simpl. lia.
    + intros i s Hi. apply Hident. by apply lookup_app_l_Some.
  - done.
  - rewrite !length_app in *. simpl in *. split_and!.
    + done.
    + intros i s Hi Hlt. rewrite lookup_app_l in Hi by lia.
      apply Hclosed.
      * by apply lookup_app_l_Some.
      * lia.
    + intros i s Hi. apply lookup_app_Some in Hi as [Hi|[Hge Hi]].
      * apply Hident. by apply lookup_app_l_Some.
      * apply list_lookup_singleton_Some in Hi as [Hi <-].
        destruct (Hident i l') as (s' & Hs' & Hid' & Hnum' & Hts').
        { rewrite lookup_app_r by lia. by rewrite Hi. }
        exists s'. split; [done|]. by rewrite Hid', Hnum', Hts'.
Qed.

Lemma reduce_length (steps : list AgentStep.t) (f : StepFrame) :
  length steps ≤ length (reduce steps f) ∧
  length (reduce steps f) ≤ length steps + thinkingFrames [f] ∧
  (thinkingFrames [f] = 1 → 0 < length (reduce steps f)).
Proof.
  destruct f as [now data|data]; simpl.
  - unfold thinkingSteps. destruct (last steps) as [l|] eqn:Hlast.
    + apply last_Some in Hlast as [init ->].
      destruct (String.eqb _ _); rewrite ?insert_last, !length_app; simpl; lia.
    + rewrite length_app. simpl. lia.
  - unfold actionSteps. destruct (last steps) as [l|] eqn:Hlast; simpl.
    + rewrite length_insert. lia.
    + lia.
Qed.

Lemma foldl_reduce_length (frames : list StepFrame) (steps : list AgentStep.t) :
  length steps ≤ length (foldl reduce steps frames).
Proof.
  revert steps. induction frames as [|f frames IH]; intros steps; simpl; [done|].
  pose proof (reduce_length steps f) as (Hmono & _).
  specialize (IH (reduce steps f)). lia.
Qed.

(** X21. Only thinking frames add steps, and each adds at most one: the
    list grows by at most the number of thinking frames, action frames alone
    leave its length as it is, and there is a step as soon as there was a
    thinking frame. *)
Theorem only_thinking_frames_add_steps (frames : list StepFrame)
    (steps : list AgentStep.t) :
  length (foldl reduce steps frames) ≤ length steps + thinkingFrames frames ∧
  (thinkingFrames frames = 0 →
   length (foldl reduce steps frames) = length steps) ∧
  (0 < thinkingFrames frames → 0 < length (foldl reduce steps frames)).
Proof.
  revert steps. induction frames as [|f frames IH]; intros steps; simpl.
  { split_and!; [lia|done|lia]. }
  destruct (IH (reduce steps f)) as (Hle & Hzero & Hpos).
  pose proof (reduce_length steps f) as (Hmono & Hstep & Hone).
  pose proof (foldl_reduce_length frames (reduce steps f)) as Hfold.
  destruct f as [now data|data]; simpl in *.
  - split_and!; [lia|done|]. intros _. specialize (Hone eq_refl). lia.
  - split_and!.
    + lia.
    + intros Hz. rewrite Hzero by done. lia.
    + done.
Qed.

(** ** More on the stored history *)






Lemma js_or_same {A} `{Falsy A} (d : A) : js_or (Some d) d = d.
Proof. unfold js_or. by destruct (falsy d). Qed.

Lemma js_or_falsy {A} `{Falsy A} (x : option A) (d : A) :
  truthy x = false → js_or x d = d.
Proof.
  unfold truthy, js_or. destruct x as [v|]; [|done].
  by destruct (falsy v).
Qed.

(** X23. The conversion of the steps array of an assistant row yields
    no steps when the array holds [null]: it throws.  Otherwise the
    converted steps have pairwise different ids; and when each entry has a
    step number that is missing, false in a condition, or the number of its
    place, the converted steps are numbered from 1 without gap, also at the
    type under which the store holds them. *)
Theorem history_steps_ids_and_numbers (conv : ConversationRecord.t)
    (a : JSRecord) (entries : list JSON) :
  ConversationRecord.role conv = "assistant" →
  ConversationRecord.action conv = Some a →
  prop "steps" a = Some (JArr entries) →
  (JNull ∈ entries → historySteps conv = Throws "TypeError") ∧
  (JNull ∉ entries →
   ∃ out,
     historySteps conv = Returns (Some out) ∧
     NoDup (HistoryStep.id <$> out) ∧
     ((∀ i entry, entries !! i = Some entry →
         truthy (member "stepNumber" entry) = false ∨
         member "stepNumber" entry = Some (JNum (of_nat (i + 1)))) →
      (∀ i s, out !! i = Some s →
         HistoryStep.stepNumber s = JNum (of_nat (i + 1))) ∧
      (∀ steps, mapM asAgentStep out = Some steps → contiguous steps))).
Proof.
  intros Hrole Haction Hsteps. split.
  { intros Hnull. apply historySteps_throws. split; [|done].
    split; [done|]. by exists a, entries. }
  intros Hnull.
  destruct (historySteps_array conv a entries Hrole Haction Hsteps Hnull)
    as (out & Hout & Hlen & Hentries).
  exists out. split; [done|].
  assert (∀ i s, out !! i = Some s →
            ∃ entry, entries !! i = Some entry ∧
                     historyStep conv i entry = Returns s) as Hback.
  { intros i s Hi.
    destruct (lookup_lt_is_Some_2 entries i) as [entry Hentry].
    { apply lookup_lt_Some in Hi. lia. }
    exists entry. split; [done|].
    destruct (Hentries i entry Hentry) as (r & Hr & Hstep). congruence. }
  assert (∀ i s, out !! i = Some s →
            HistoryStep.id s =
              ConversationRecord.id conv +:+ "-step-" +:+ pretty (i + 1)) as Hid.
  { intros i s Hi. destruct (Hback i s Hi) as (entry & _ & Hstep).
    by destruct entry; try discriminate; injection Hstep as <-. }
  split.
  - apply NoDup_alt. intros i j x Hi Hj.
    rewrite list_lookup_fmap in Hi, Hj.
    destruct (out !! i) as [si|] eqn:Hsi; [|done].
    destruct (out !! j) as [sj|] eqn:Hsj; [|done].
    simpl in Hi, Hj. rewrite <- Hj in Hi. clear Hj.
    injection Hi as Hi. rewrite (Hid i si), (Hid j sj) in Hi by done.
    apply (inj (String.app _)), (inj (String.app _)), (inj pretty) in Hi. lia.
  - intros Hnumbers.
    assert (∀ i s, out !! i = Some s →
              HistoryStep.stepNumber s = JNum (of_nat (i + 1))) as Hnum.
    { intros i s Hi. destruct (Hback i s Hi) as (entry & Hentry & Hstep).
      assert (HistoryStep.stepNumber s =
                js_or (member "stepNumber" entry) (JNum (of_nat (i + 1)))) as ->
        by (by destruct entry; try discriminate; injection Hstep as <-).
      destruct (Hnumbers i entry Hentry) as [Hfalsy | ->].
      - by apply js_or_falsy.
      - apply js_or_same. }
    split; [done|].
    intros steps Hcast i t Hi. apply mapM_Some in Hcast.
    destruct (Forall2_lookup_r _ _ _ i t Hcast Hi) as (s & Hs & Hst).
    specialize (Hnum i s Hs). unfold asAgentStep in Hst. rewrite Hnum in Hst.
    destruct (HistoryStep.status s); try done.
    destruct (HistoryStep.thinking s) as [[]|]; try done;
      destruct (HistoryStep.action s) as [[]|]; try done;
      by simplify_eq/=.
Qed.

Lemma history_steps_ids_and_numbers_witness :
  ConversationRecord.role twoStepRow = "assistant" ∧
  ∃ out,
    historySteps twoStepRow = Returns (Some out) ∧
    HistoryStep.stepNumber <$> out = [JNum (of_nat 1); JNum (of_nat 2)] ∧
    ∃ steps, mapM asAgentStep out = Some steps ∧ contiguous steps.
Proof.
  split; [reflexivity|].
  destruct (history_steps_ids_and_numbers twoStepRow _ _
              eq_refl eq_refl eq_refl) as [_ Harray].
  destruct Harray as (out & Hout & _ & Hnumbers).
  { intros [[=]|[[=]|[]%elem_of_nil]%elem_of_cons]%elem_of_cons. }
  exists out. split; [exact Hout|].
  injection Hout as <-. split; [reflexivity|].
  eexists. split; [reflexivity|].
  apply Hnumbers; [|reflexivity].
  intros [|[|i]] entry Hi; simpl in Hi; try done.
  - injection Hi as <-. by left.
  - injection Hi as <-. by right.
Defined.

(** ** Requests that fail *)

Lemma js_or_not_falsy {A} `{Falsy A} (x : option A) (d : A) :
  falsy d = false → falsy (js_or x d) = false.
Proof.
  intros Hd. unfold js_or. destruct x as [v|]; [|done].
  by destruct (falsy v) eqn:Hv.
Qed.

Section ApiProperties.

Variable ToString : JSON → string.

Lemma rejectNotOk_error (response : Response.t) :
  Response.json response ≠ Some JNull →
  rejectNotOk ToString response =
  RejectedApiError
    (newApiError ToString (Response.status response)
       (js_or (member "detail"
                 (default (JObj [("detail", JStr REQUEST_FAILED)])
                    (Response.json response)))
          (JStr REQUEST_FAILED))).
Proof.
  intros Hbody. unfold rejectNotOk.
  destruct (Response.json response) as [[]|]; by simpl.
Qed.

Lemma newApiError_string (status : Z) (detail : JSON) (s : string) :
  detail = JStr s → ApiError.message (newApiError ToString status detail) = s.
Proof. by intros ->. Qed.

(** X24. [apiRequest] never resolves on a response that is not ok.  When
    the body of such a response is [null] it rejects with a TypeError;
    otherwise it rejects with an [ApiError] that carries the status of the
    response and a detail that is not falsy, and whose message is the detail
    when the detail is a string.  When the body cannot be read as JSON, or
    has no detail, or a falsy one, detail and message are the text
    'Request failed'. *)
Theorem apiRequest_rejects_response_not_ok (response : Response.t) :
  Response.ok response = false →
  (∀ value, apiRequest ToString (inl response) ≠ Resolved value) ∧
  (Response.json response = Some JNull →
   apiRequest ToString (inl response) = RejectedOther "TypeError") ∧
  (Response.json response ≠ Some JNull →
   ∃ e, apiRequest ToString (inl response) = RejectedApiError e ∧
        ApiError.status e = Response.status response ∧
        ApiError.name e = "ApiError" ∧
        falsy (ApiError.detail e) = false ∧
        (∀ s, ApiError.detail e = JStr s → ApiError.message e = s)) ∧
  (Response.json response = None
   ∨ (∃ body, Response.json response = Some body ∧ body ≠ JNull ∧
              truthy (member "detail" body) = false) →
   ∃ e, apiRequest ToString (inl response) = RejectedApiError e ∧
        ApiError.detail e = JStr REQUEST_FAILED ∧
        ApiError.message e = REQUEST_FAILED).
Proof.
  intros Hok. unfold apiRequest. rewrite Hok.
  split_and!.
  - intros value. unfold rejectNotOk.
    by destruct (default _ (Response.json response)).
  - unfold rejectNotOk. by intros ->.
  - intros Hbody. rewrite rejectNotOk_error by done.
    eexists. split; [done|]. split_and!.
    + done.
    + done.
    + by apply js_or_not_falsy.
    + intros s. apply newApiError_string.
  - intros Hcase.
    assert (Response.json response ≠ Some JNull) as Hbody.
    { destruct Hcase as [->|(body & -> & Hbody & _)]; [done|].
      by intros [= ->]. }
    rewrite rejectNotOk_error by done.
    assert (js_or (member "detail"
                     (default (JObj [("detail", JStr REQUEST_FAILED)])
                        (Response.json response)))
              (JStr REQUEST_FAILED) = JStr REQUEST_FAILED) as ->.
    { destruct Hcase as [->|(body & -> & _ & Hdetail)]; [done|]. simpl.
      unfold js_or. unfold truthy in Hdetail.
      destruct (member "detail" body) as [v|]; [|done].
      by destruct (falsy v). }
    by eexists.
Qed.

(** X25. [handleCreateSession] shows the success notice only when the
    request resolved.  A failure that is not an [ApiError] with status 403,
    a network failure or any other status included, shows the busy text; a
    403 whose body cannot be read as JSON shows the plain failure text. *)
Theorem createSession_failure_notice (fetched : Response.t + string) :
  (createSessionNotice (apiRequest ToString fetched) = Success →
   ∃ response value, fetched = inl response ∧ Response.ok response = true ∧
                     Response.json response = Some value) ∧
  (∀ name, fetched = inr name →
     createSessionNotice (apiRequest ToString fetched) =
       ErrorText (JStr CREATE_FAILED_BUSY)) ∧
  (∀ response, fetched = inl response → Response.ok response = false →
     Response.status response ≠ 403%Z →
     createSessionNotice (apiRequest ToString fetched) =
       ErrorText (JStr CREATE_FAILED_BUSY)) ∧
  (∀ response, fetched = inl response → Response.ok response = false →
     Response.status response = 403%Z → Response.json response = None →
     createSessionNotice (apiRequest ToString fetched) =
       ErrorText (JStr CREATE_FAILED)).
Proof.
  split_and!.
  - destruct fetched as [response|name]; simpl; [|done].
    destruct (Response.ok response) eqn:Hok.
    + destruct (Response.json response) as [value|] eqn:Hjson; [|done].
      intros _. by exists response, value.
    + unfold rejectNotOk.
      destruct (default _ (Response.json response)); simpl; try done;
        destruct (Z.eqb _ 403); try done;
        repeat (match goal with
                | |- context [match ?x with _ => _ end] => destruct x
                end; try done).
  - by intros name ->.
  - intros response -> Hok Hstatus. simpl. rewrite Hok. unfold rejectNotOk.
    apply Z.eqb_neq in Hstatus.
    destruct (default _ (Response.json response)); simpl; try done;
      by rewrite Hstatus.
  - intros response -> Hok Hstatus Hjson. simpl.
    rewrite Hok. unfold rejectNotOk. rewrite Hjson. simpl.
    by rewrite Hstatus.
Qed.

End ApiProperties.

Lemma apiRequest_rejects_response_not_ok_witness :
  let response :=
    Response.mk false 403
      (Some (JObj [("detail", JObj [("type", JStr "daily_limit_exceeded");
                                    ("message", JStr "limit reached")])])) in
  Response.ok response = false ∧
  ∃ e, apiRequest (λ _, "") (inl response) = RejectedApiError e ∧
       ApiError.status e = 403%Z.
Proof.
  intros response. split; [reflexivity|].
  destruct (apiRequest_rejects_response_not_ok (λ _, "") response eq_refl)
    as (_ & _ & Hapi & _).
  destruct Hapi as (e & He & Hstatus & _); [done|].
  by exists e.
Defined.

(** ** What holds of every store that the operations reach *)

Lemma set_idle_controller (st : SessionState) :
  isProcessing (set_idle st) = false ∧ sseController (set_idle st) = None.
Proof. done. Qed.

Lemma updateLastMessage_flags (u : Updates.t) (st : SessionState) :
  isProcessing (updateLastMessage u st) = isProcessing st ∧
  sseController (updateLastMessage u st) = sseController st ∧
  takeover (updateLastMessage u st) = takeover st.
Proof. unfold updateLastMessage. by destruct (last (messages st)). Qed.

Lemma dispatch_flags (now : Z) (eventType : string) (data : EventData.t)
    (st : SessionState) :
  (isProcessing (dispatch now eventType data st) = isProcessing st ∧
   sseController (dispatch now eventType data st) = sseController st)
  ∨ (isProcessing (dispatch now eventType data st) = false ∧
     sseController (dispatch now eventType data st) = None).
Proof.
  unfold dispatch.
  repeat match goal with
  | |- context [String.eqb eventType ?k] => destruct (String.eqb eventType k)
  end; try (by left); try (by right).
  - left. unfold onThinking. by destruct (updateLastMessage_flags
      (Updates.mk None (Some (thinkingSteps now data (currentSteps st))) None None)
      st) as (-> & -> & _).
  - left. unfold onAction. destruct (actionSteps _ _) as [steps|]; [|done].
    by destruct (updateLastMessage_flags
      (Updates.mk None (Some steps) (Some (EventData.action data)) None) st)
      as (-> & -> & _).
Qed.

Lemma set_idle_takeover (st : SessionState) : takeover (set_idle st) = takeover st.
Proof. done. Qed.

Lemma sendTask_cases (now : Z) (task : string) (r : option AbortController)
    (st : SessionState) :
  (sendTask now task r st).1 = st
  ∨ (∃ session controller,
       r = Some controller ∧ isProcessing st = false ∧
       currentSession st = Some session ∧
       isProcessing (sendTask now task r st).1 = true ∧
       sseController (sendTask now task r st).1 = Some controller ∧
       takeover (sendTask now task r st).1 = takeover st)
  ∨ (isProcessing st = false ∧
     isProcessing (sendTask now task r st).1 = false ∧
     sseController (sendTask now task r st).1 = sseController st ∧
     takeover (sendTask now task r st).1 = takeover st).
Proof.
  unfold sendTask, sendTask_begin.
  destruct (isProcessing st) eqn:Hproc; [by left|].
  destruct (currentSession st) as [session|]; [|by left].
  destruct r as [controller|]; right.
  - left. by exists session, controller.
  - right. lazy beta iota zeta delta [fst snd sendTask_end].
    by destruct (updateLastMessage_flags (finalContent SEND_FAILED)
      (set_isProcessing false (set_isProcessing true (set_messages
         (messages st ++ [userMessage now task; assistantMessage now]) st))))
      as (-> & -> & ->).
Qed.

Lemma terminal_flags (u : Updates.t) (st : SessionState) :
  takeover (set_idle (updateLastMessage u st)) = takeover st.
Proof.
  rewrite set_idle_takeover.
  by destruct (updateLastMessage_flags u st) as (_ & _ & ->).
Qed.

Lemma stopTask_cases (ok : bool) (st : SessionState) :
  (stopTask ok st).1 = st
  ∨ (isProcessing (stopTask ok st).1 = false ∧
     sseController (stopTask ok st).1 = None ∧
     takeover (stopTask ok st).1 = takeover st).
Proof.
  unfold stopTask, stopTask_begin.
  destruct (isProcessing st); [|by left].
  destruct (currentSession st) as [session|]; [|by left].
  right. unfold stopTask_end.
  destruct ok; lazy beta iota zeta delta [fst snd negb];
    (split_and!; [done|done|apply terminal_flags]).
Qed.

Lemma closeSession_flags (ok : bool) (sessionId : string) (st : SessionState) :
  isProcessing (closeSession ok sessionId st).1 = isProcessing st ∧
  takeover (closeSession ok sessionId st).1 = takeover st ∧
  (sseController (closeSession ok sessionId st).1 = sseController st
   ∨ sseController (closeSession ok sessionId st).1 = None).
Proof.
  unfold closeSession. destruct ok; [|by split_and!; try left].
  destruct (match currentSession st with
            | Some session => String.eqb (Session.id session) sessionId
            | None => false end); simpl; split_and!; try done;
    [by right|by left].
Qed.

Lemma onConnectionError_takeover (st : SessionState) :
  takeover (onConnectionError st) = takeover st.
Proof.
  unfold onConnectionError.
  destruct (lastIsStreaming st); [apply terminal_flags|done].
Qed.

Lemma dispatch_takeover (now : Z) (eventType : string) (data : EventData.t)
    (st : SessionState) :
  String.eqb eventType "takeover" = false →
  takeover (dispatch now eventType data st) = takeover st.
Proof.
  intros Hkind. unfold dispatch. rewrite Hkind.
  repeat match goal with
  | |- context [String.eqb eventType ?k] => destruct (String.eqb eventType k)
  end; try done.
  - unfold onThinking. by destruct (updateLastMessage_flags
      (Updates.mk None (Some (thinkingSteps now data (currentSteps st))) None None)
      st) as (_ & _ & ->).
  - unfold onAction. destruct (actionSteps _ _) as [steps|]; [|done].
    by destruct (updateLastMessage_flags
      (Updates.mk None (Some steps) (Some (EventData.action data)) None) st)
      as (_ & _ & ->).
  - apply terminal_flags.
  - unfold onError. destruct (lastIsStreaming st); [apply terminal_flags|done].
  - apply terminal_flags.
Qed.

(** X26. When each operation runs to its end before the next one starts,
    every store reached from the initial one holds no controller while no
    task is processing. *)
Theorem idle_store_holds_no_controller (st : SessionState) :
  reachable st → isProcessing st = false → sseController st = None.
Proof.
  induction 1 as [|st a _ IH]; [done|].
  destruct a as [agentType|r|name r|session r|ok sessionId|now task r|ok
                |message| |ok|now eventType data|]; simpl.
  - done.
  - by destruct r.
  - by destruct r.
  - by destruct r.
  - destruct (closeSession_flags ok sessionId st) as (-> & _ & [-> | ->]); done.
  - destruct (sendTask_cases now task r st)
      as [-> |[(session & controller & _ & _ & _ & -> & _)
              |(Hidle & _ & -> & _)]]; [done|done|].
    intros _. by apply IH.
  - destruct (stopTask_cases ok st) as [-> |(_ & -> & _)]; done.
  - done.
  - done.
  - done.
  - destruct (dispatch_flags now eventType data st) as [[-> ->]|[_ ->]]; done.
  - done.
Qed.

Lemma reachable_foldl (actions : list Action) (st : SessionState) :
  reachable st → reachable (foldl run st actions).
Proof.
  revert st. induction actions as [|a actions IH]; intros st Hst; [done|].
  simpl. by apply IH, reachable_run.
Qed.

Lemma idle_store_holds_no_controller_witness :
  reachable takeoverIdleState ∧
  isProcessing takeoverIdleState = false ∧
  sseController takeoverIdleState = None.
Proof.
  assert (reachable takeoverIdleState) as Hreach.
  { change takeoverIdleState
      with (foldl run initialState
              [DoCreateSession None (Some sampleSession);
               DoSendTask 1000 "open settings" (Some 1);
               DoFrame 0 "takeover" (messageData "please login");
               DoFrame 0 "completed" (messageData "done")]).
    apply reachable_foldl, reachable_initial. }
  split; [exact Hreach|]. split; [reflexivity|].
  by apply (idle_store_holds_no_controller takeoverIdleState Hreach).
Defined.

(** X27. The takeover state is written by the takeover frame, by
    [completeTakeover] and by a [createSession] whose request resolves, and
    by nothing else: stopping a task, a completed, stopped or error frame, a
    connection error, sending a task, and selecting or closing a session all
    leave it as it is. *)
Theorem takeover_written_by_three_actions (st : SessionState) (a : Action) :
  writesTakeover a = false → takeover (run st a) = takeover st.
Proof.
  destruct a as [agentType|r|name r|session r|ok sessionId|now task r|ok
                |message| |ok|now eventType data|]; simpl; intros Hw.
  - done.
  - by destruct r.
  - by destruct r.
  - by destruct r.
  - by destruct (closeSession_flags ok sessionId st) as (_ & -> & _).
  - by destruct (sendTask_cases now task r st)
      as [-> |[(session & controller & _ & _ & _ & _ & _ & ->)
              |(_ & _ & _ & ->)]].
  - by destruct (stopTask_cases ok st) as [-> |(_ & _ & ->)].
  - done.
  - done.
  - done.
  - by apply dispatch_takeover.
  - apply onConnectionError_takeover.
Qed.

Lemma takeover_written_by_three_actions_witness :
  writesTakeover (DoStopTask false) = false ∧
  takeover (run (onTakeover (messageData "please login") runningState)
              (DoStopTask false)) =
    TakeoverState.mk true (Some "please login").
Proof.
  split; [reflexivity|].
  by rewrite (takeover_written_by_three_actions
                (onTakeover (messageData "please login") runningState)
                (DoStopTask false) eq_refl).
Defined.



(** ** The wire format, end to end *)

Lemma includes_NL_NLNL (s : string) :
  includes NL s = false → includes NLNL s = false ∧ endsWithNL s = false.
Proof.
  induction s as [|c s IH]; [done|].
  change (includes NL (String c s))
    with (Ascii.eqb "010" c && true || includes NL s).
  rewrite andb_true_r. intros [Hc Hs]%orb_false_iff.
  destruct (IH Hs) as [Hsep Hend]. split.
  - change (includes NLNL (String c s))
      with (Ascii.eqb "010" c && startsWith NL s || includes NLNL s).
    by rewrite Hc, Hsep.
  - destruct s as [|d s]; [simpl; by rewrite Hc|done].
Qed.

Lemma clean_two_lines (a b : string) (d : ascii) :
  includes NL a = false → includes NL (String d b) = false →
  clean (a +:+ NL +:+ String d b) = true.
Proof.
  intros Ha Hb. unfold clean.
  destruct (includes_NL_NLNL _ Hb) as [Hsep Hend].
  assert (Ascii.eqb "010" d = false) as Hd.
  { change (includes NL (String d b))
      with (Ascii.eqb "010" d && true || includes NL b) in Hb.
    rewrite andb_true_r in Hb. by apply orb_false_iff in Hb as [-> _]. }
  assert (includes NLNL (a +:+ NL +:+ String d b) = false ∧
          endsWithNL (a +:+ NL +:+ String d b) = false) as [-> ->]; [|done].
  induction a as [|c a IH].
  - change ("" +:+ NL +:+ String d b) with (String "010" (String d b)).
    split.
    + change (includes NLNL (String "010" (String d b)))
        with (Ascii.eqb "010" "010" && (Ascii.eqb "010" d && true)
              || includes NLNL (String d b)).
      by rewrite Hd, Hsep.
    + done.
  - change (includes NL (String c a))
      with (Ascii.eqb "010" c && true || includes NL a) in Ha.
    rewrite andb_true_r in Ha. apply orb_false_iff in Ha as [Hc Ha].
    destruct (IH Ha) as [IHsep IHend].
    change (String c a +:+ NL +:+ String d b)
      with (String c (a +:+ NL +:+ String d b)).
    split.
    + change (includes NLNL (String c (a +:+ NL +:+ String d b)))
        with (Ascii.eqb "010" c && startsWith NL (a +:+ NL +:+ String d b)
              || includes NLNL (a +:+ NL +:+ String d b)).
      by rewrite Hc, IHsep.
    + destruct a; done.
Qed.

Lemma clean_frameText (kind data : string) :
  includes NL kind = false → includes NL data = false →
  clean (frameText kind data) = true.
Proof.
  intros Hkind Hdata. unfold frameText.
  rewrite <- (append_assoc "event: " kind).
  by apply (clean_two_lines ("event: " +:+ kind) ("ata: " +:+ data) "d").
Qed.

Lemma parseLines_frameText (kind data : string) :
  includes NL kind = false → includes NL data = false →
  parseLines (frameText kind data) = (kind, data).
Proof.
  intros Hkind Hdata.
  assert (includes NL ("event: " +:+ kind) = false) as Hevent by done.
  assert (includes NL ("data: " +:+ data) = false) as Hline by done.
  unfold parseLines, frameText.
  rewrite <- (append_assoc "event: " kind), split_NL_app.
  rewrite !split_NL_line by done. simpl.
  by rewrite scanLine_event, scanLine_data.
Qed.

Section WireFormat.

Variable JSON_parse : string → option EventData.t.

(** X29. A chunk made of frames in the server's format, each an event
    line and a data line without newline inside, followed by a blank line,
    is read back frame by frame: the loop hands each kind and data, in
    order, to the switch, skipping a frame whose kind or data is empty or
    whose data JSON.parse rejects, and it keeps an empty buffer. *)
Theorem wire_format_is_read_back (now : Z) (st : SessionState)
    (frames : list (string * string)) :
  Forall (λ frame, includes NL frame.1 = false ∧ includes NL frame.2 = false)
    frames →
  processChunk JSON_parse now ("", st)
    (wire ((λ frame, frameText frame.1 frame.2) <$> frames)) =
  ("", foldl (dispatchText JSON_parse now) st frames).
Proof.
  intros Hframes.
  rewrite (processChunk_events JSON_parse now st _
             ((λ frame, frameText frame.1 frame.2) <$> frames) "").
  - f_equal. revert st.
    induction Hframes as [|[kind data] frames [Hkind Hdata] _ IH]; intros st;
      [done|].
    simpl. rewrite <- IH. f_equal.
    rewrite processEvent_without_trim, parseLines_frameText by done.
    done.
  - rewrite <- (append_empty (wire _)), split_wire_clean; [done|].
    apply Forall_fmap. eapply Forall_impl; [exact Hframes|].
    intros [kind data] [Hkind Hdata]. by apply clean_frameText.
Qed.

End WireFormat.

Lemma wire_format_is_read_back_witness :
  let frames := [("thinking", "{plan A"); ("action", "{tap");
                 ("completed", "{done")] in
  Forall (λ frame, includes NL frame.1 = false ∧ includes NL frame.2 = false)
    frames ∧
  processChunk sampleParse 7 ("", runningState)
    (wire ((λ frame, frameText frame.1 frame.2) <$> frames)) =
  ("", foldl (dispatchText sampleParse 7) runningState frames).
Proof.
  intros frames.
  assert (Forall (λ frame, includes NL frame.1 = false ∧
                           includes NL frame.2 = false) frames) as Hframes.
  { by repeat constructor. }
  split; [exact Hframes|].
  apply (wire_format_is_read_back sampleParse 7 runningState frames Hframes).
Defined.

(** X30. On a store without messages no frame creates one: thinking and
    action frames leave the store as it is, the steps they carry are lost,
    and completed, stopped and error frames only set the store idle. *)
Theorem frames_without_message_write_no_message (now : Z)
    (data : EventData.t) (st : SessionState) :
  messages st = [] →
  dispatch now "thinking" data st = st ∧
  dispatch now "action" data st = st ∧
  dispatch now "completed" data st = set_idle st ∧
  dispatch now "stopped" data st = set_idle st ∧
  dispatch now "error" data st = set_idle st ∧
  (∀ eventType, messages (dispatch now eventType data st) = []).
Proof.
  intros Hnil.
  assert (∀ u, updateLastMessage u st = st) as Hupdate.
  { intros u. unfold updateLastMessage. rewrite Hnil. simpl.
    rewrite <- Hnil. apply set_messages_same. }
  assert (currentSteps st = []) as Hsteps.
  { unfold currentSteps. by rewrite Hnil. }
  assert (lastIsStreaming st = false) as Hlast.
  { unfold lastIsStreaming. by rewrite Hnil. }
  assert (dispatch now "thinking" data st = st) as Hthinking.
  { change (onThinking now data st = st). unfold onThinking. apply Hupdate. }
  assert (dispatch now "action" data st = st) as Haction.
  { change (onAction data st = st). unfold onAction. by rewrite Hsteps. }
  assert (dispatch now "completed" data st = set_idle st) as Hcompleted.
  { change (onCompleted data st = set_idle st). unfold onCompleted.
    by rewrite Hupdate. }
  assert (dispatch now "stopped" data st = set_idle st) as Hstopped.
  { change (onStopped data st = set_idle st). unfold onStopped.
    by rewrite Hupdate. }
  assert (dispatch now "error" data st = set_idle st) as Herror.
  { change (onError data st = set_idle st). unfold onError. by rewrite Hlast. }
  split_and!; try done.
  intros eventType. unfold dispatch.
  repeat match goal with
  | |- context [String.eqb eventType ?k] =>
      destruct (String.eqb_spec eventType k) as [->|?]
  end; try done.
  - change (messages (dispatch now "thinking" data st) = []).
    by rewrite Hthinking.
  - change (messages (dispatch now "action" data st) = []).
    by rewrite Haction.
  - change (messages (dispatch now "completed" data st) = []).
    by rewrite Hcompleted.
  - change (messages (dispatch now "error" data st) = []).
    by rewrite Herror.
  - change (messages (dispatch now "stopped" data st) = []).
    by rewrite Hstopped.
Qed.

Lemma frames_without_message_write_no_message_witness :
  messages (clearMessages runningState) = [] ∧
  dispatch 5 "thinking" (thinkingData "p1") (clearMessages runningState) =
    clearMessages runningState.
Proof.
  split; [reflexivity|].
  by destruct (frames_without_message_write_no_message 5 (thinkingData "p1")
                 (clearMessages runningState) eq_refl) as (H & _).
Defined.
